(** * Custom-panel helpers of dashboards-observability

    A shallow embedding of
    [public/components/custom_panels/helpers/utils.tsx]: the query
    accumulator, the span-interval updater, the validators and the
    layout merge, together with the part of the ECMAScript string and
    regular-expression semantics these helpers run on; then the
    helpers that fetch and render a panel, the recently used time
    ranges, and the toasts and the empty-tab search of the
    event-analytics page. *)

From Stdlib Require Import Ascii String.
From Stdlib Require Import NArith ZArith QArith Bool Arith Lia List.
Import ListNotations.
Close Scope Q_scope.

Set Implicit Arguments.

(* ================================================================== *)
(** ** JavaScript strings and completion values *)

(** A JavaScript string is a sequence of 16-bit code units. *)
Abbreviation char := N.
Definition str := list char.

(** [lit "..."] is the JavaScript string literal with the given ASCII
    text. *)
Definition lit (s : string) : str := map N_of_ascii (list_ascii_of_string s).

Definition ch (a : ascii) : char := N_of_ascii a.
Arguments ch a%_char.

Fixpoint str_eqb (a b : str) : bool :=
  match a, b with
  | [], [] => true
  | x :: a', y :: b' => N.eqb x y && str_eqb a' b'
  | _, _ => false
  end.

(** The errors the helpers can throw. *)
Inductive exn :=
| JsError (msg : str)      (* [throw Error(msg)] *)
| TypeError                (* property access on [undefined] *)
| SyntaxError.             (* [new RegExp] on an ill-formed pattern *)

(** A call either returns a value or throws. *)
Inductive outcome (A : Type) :=
| Ret (a : A)
| Throw (e : exn).
Arguments Ret {A} a.
Arguments Throw {A} e.

Definition bind {A B} (o : outcome A) (f : A -> outcome B) : outcome B :=
  match o with
  | Ret a => f a
  | Throw e => Throw e
  end.

Notation "'let*' x ':=' o 'in' k" := (bind o (fun x => k))
  (at level 10, x name, o at level 100, k at level 200).

(* ================================================================== *)
(** ** Regular expressions (ECMAScript, no flags) *)

Module RegExp.

(** Character sets of single-character atoms. *)
Inductive cset :=
| CsChar (c : char)
| CsDot                      (* [.] *)
| CsDigit                    (* [\d] *)
| CsSpace                    (* [\s] *)
| CsWord                     (* [\w] *)
| CsRange (lo hi : char)
| CsUnion (a b : cset)
| CsNot (s : cset).
Arguments CsChar c%_N.
Arguments CsRange (lo hi)%_N.

Inductive regex :=
| Empty
| Chr (cs : cset)
| Seq (a b : regex)
| Alt (a b : regex)
| Quant (min : nat) (max : option nat) (greedy : bool) (r : regex)
| Group (i : nat) (r : regex)        (* capturing group number [i] *)
| Bol                                (* [^] *)
| Eol                                (* [$] *)
| WordB                              (* [\b] *)
| NotWordB.                          (* [\B] *)

Definition in_range (lo hi c : char) : bool := (lo <=? c)%N && (c <=? hi)%N.
Arguments in_range (lo hi c)%_N.

(** LineTerminator: LF, CR, LS, PS. *)
Definition is_line_terminator (c : char) : bool :=
  (c =? 10)%N || (c =? 13)%N || (c =? 8232)%N || (c =? 8233)%N.

(** WhiteSpace and LineTerminator code units, the set of [\s]. *)
Definition is_whitespace (c : char) : bool :=
  in_range 9 13 c || (c =? 32)%N || (c =? 160)%N || (c =? 5760)%N
  || in_range 8192 8202 c || (c =? 8232)%N || (c =? 8233)%N
  || (c =? 8239)%N || (c =? 8287)%N || (c =? 12288)%N || (c =? 65279)%N.

Definition is_digit (c : char) : bool := in_range 48 57 c.

Definition is_word (c : char) : bool :=
  in_range 97 122 c || in_range 65 90 c || is_digit c || (c =? 95)%N.

Fixpoint cset_mem (s : cset) (c : char) : bool :=
  match s with
  | CsChar d => (c =? d)%N
  | CsDot => negb (is_line_terminator c)
  | CsDigit => is_digit c
  | CsSpace => is_whitespace c
  | CsWord => is_word c
  | CsRange lo hi => in_range lo hi c
  | CsUnion a b => cset_mem a c || cset_mem b c
  | CsNot a => negb (cset_mem a c)
  end.

(** The numbers of the capturing groups inside a term. *)
Fixpoint groups (r : regex) : list nat :=
  match r with
  | Seq a b | Alt a b => groups a ++ groups b
  | Quant _ _ _ a => groups a
  | Group i a => i :: groups a
  | _ => []
  end.

(** *** Match states

    The input is kept as a zipper: [before] holds the code units
    already consumed, last one first, [rest] the ones still ahead; the
    end index of the state is [length before].  [caps] maps a group
    number to the start and end index of its last capture. *)
Record mstate := MState {
  before : list char;
  rest : list char;
  caps : list (nat * (nat * nat))
}.

Definition pos (x : mstate) : nat := length (before x).

Definition cont := mstate -> option mstate.

Definition reset_caps (inner : list nat) (x : mstate) : mstate :=
  MState (before x) (rest x)
         (filter (fun e => negb (existsb (Nat.eqb (fst e)) inner)) (caps x)).

Definition set_cap (i : nat) (se : nat * nat) (x : mstate) : mstate :=
  MState (before x) (rest x)
         ((i, se) :: filter (fun e => negb (Nat.eqb (fst e) i)) (caps x)).

Fixpoint get_cap (i : nat) (cs : list (nat * (nat * nat))) : option (nat * nat) :=
  match cs with
  | [] => None
  | (j, se) :: cs' => if Nat.eqb i j then Some se else get_cap i cs'
  end.

Definition is_word_at (o : option char) : bool :=
  match o with
  | Some c => is_word c
  | None => false
  end.

Definition at_word_boundary (x : mstate) : bool :=
  xorb (is_word_at (hd_error (before x))) (is_word_at (hd_error (rest x))).

(** RepeatMatcher: [m] matches the quantified atom, [inner] are the
    groups the atom contains, which every iteration resets.  An
    iteration that is not required ([min = 0]) and consumes nothing
    fails, so the [min + length rest + 1] units of fuel [matcher]
    passes are never used up ([quantifier_fuel_enough] below). *)
Fixpoint repeat_matcher (fuel : nat) (m : mstate -> cont -> option mstate)
    (inner : list nat) (min : nat) (max : option nat) (greedy : bool)
    (x : mstate) (k : cont) {struct fuel} : option mstate :=
  match fuel with
  | O => None
  | S fuel' =>
    match max with
    | Some O => k x
    | _ =>
      let d := fun y : mstate =>
        if Nat.eqb min 0 && Nat.eqb (pos y) (pos x) then None
        else repeat_matcher fuel' m inner (Nat.pred min) (option_map Nat.pred max)
                            greedy y k in
      let xr := reset_caps inner x in
      if negb (Nat.eqb min 0) then m xr d
      else if greedy then
        match m xr d with
        | Some z => Some z
        | None => k x
        end
      else
        match k x with
        | Some z => Some z
        | None => m xr d
        end
    end
  end.

(** The matcher of a term, in continuation-passing style: [matcher r x k]
    tries the ways [r] can match at [x] in priority order and returns
    the first for which the continuation [k] succeeds. *)
Fixpoint matcher (r : regex) (x : mstate) (k : cont) {struct r} : option mstate :=
  match r with
  | Empty => k x
  | Chr cs =>
    match rest x with
    | c :: t => if cset_mem cs c then k (MState (c :: before x) t (caps x)) else None
    | [] => None
    end
  | Seq a b => matcher a x (fun y => matcher b y k)
  | Alt a b =>
    match matcher a x k with
    | Some z => Some z
    | None => matcher b x k
    end
  | Quant min max greedy a =>
    repeat_matcher (min + length (rest x) + 1) (matcher a) (groups a)
                   min max greedy x k
  | Group i a =>
    matcher a x (fun y => k (set_cap i (pos x, pos y) y))
  | Bol => match before x with [] => k x | _ => None end
  | Eol => match rest x with [] => k x | _ => None end
  | WordB => if at_word_boundary x then k x else None
  | NotWordB => if at_word_boundary x then None else k x
  end.

(** *** RegExpBuiltinExec for a pattern without the [g] and [y] flags

    The match is tried at index 0, then 1, and so on up to the length
    of the input; the first index with a match wins. *)
Record match_result := MatchResult {
  m_index : nat;                          (* start index *)
  m_end : nat;                            (* end index *)
  m_caps : list (nat * (nat * nat))
}.

Fixpoint search (r : regex) (bef : list char) (rst : list char) {struct rst}
  : option match_result :=
  match matcher r (MState bef rst []) Some with
  | Some y => Some (MatchResult (length bef) (pos y) (caps y))
  | None =>
    match rst with
    | [] => None
    | c :: rst' => search r (c :: bef) rst'
    end
  end.

Definition exec (r : regex) (s : str) : option match_result := search r [] s.

(** [RegExp.prototype.test]. *)
Definition test (r : regex) (s : str) : bool :=
  match exec r s with
  | Some _ => true
  | None => false
  end.

Definition substring (s : str) (i j : nat) : str := firstn (j - i) (skipn i s).

Definition matched (s : str) (mr : match_result) : str :=
  substring s (m_index mr) (m_end mr).

(** The text of capture [i], [None] when the group did not take part. *)
Definition capture (s : str) (mr : match_result) (i : nat) : option str :=
  match get_cap i (m_caps mr) with
  | Some (a, b) => Some (substring s a b)
  | None => None
  end.

(** *** [new RegExp(source)]

    The pattern text is read left to right into a stack of open groups.
    The fragment covers literal characters, [.], the class escapes
    [\d \D \s \S \w \W], control and identity escapes, the assertions
    [^ $ \b \B], alternation, capturing and non-capturing groups, and
    the quantifiers [* + ?] with their lazy forms.  Character classes,
    braced quantifiers, look-around, named groups, back-references and
    numeric escapes are reported as [OutsideFragment]. *)
Inductive compiled :=
| Compiled (r : regex)
| IllFormed                  (* [new RegExp] throws a SyntaxError *)
| OutsideFragment.

Inductive perr := PSyntax | PUnsupported.

(** An open group: the alternatives already closed, the terms of the
    alternative being read (both most recent first) and the group
    number, if it captures. *)
Record frame := Frame {
  fr_alts : list regex;
  fr_seq : list regex;
  fr_group : option nat
}.

(** What a quantifier read next would apply to. *)
Inductive last_term :=
| LNone             (* nothing to repeat *)
| LAtom             (* an atom *)
| LQuant            (* a quantified atom; [?] makes it lazy *)
| LLazy.            (* a lazily quantified atom *)

Inductive mode :=
| MNormal
| MEscape           (* after a backslash *)
| MParen            (* after [(] *)
| MParenQ.          (* after [(?] *)

Record pstate := PState {
  ps_cur : frame;
  ps_stack : list frame;
  ps_last : last_term;
  ps_mode : mode;
  ps_groups : nat              (* capturing groups opened so far *)
}.

Definition pinit : pstate := PState (Frame [] [] None) [] LNone MNormal 0.

Fixpoint seq_of (ts : list regex) : regex :=
  match ts with
  | [] => Empty
  | t :: ts' => Seq t (seq_of ts')
  end.

Fixpoint alt_of (a : regex) (alts : list regex) : regex :=
  match alts with
  | [] => a
  | b :: alts' => Alt a (alt_of b alts')
  end.

(** The disjunction read into a frame. *)
Definition frame_regex (f : frame) : regex :=
  match rev (seq_of (rev (fr_seq f)) :: fr_alts f) with
  | [] => Empty
  | a :: alts => alt_of a alts
  end.

Definition push_term (t : regex) (l : last_term) (st : pstate) : pstate :=
  let f := ps_cur st in
  PState (Frame (fr_alts f) (t :: fr_seq f) (fr_group f))
         (ps_stack st) l MNormal (ps_groups st).

Definition push_atom (t : regex) : pstate -> pstate := push_term t LAtom.
Definition push_assertion (t : regex) : pstate -> pstate := push_term t LNone.

Definition set_mode (md : mode) (st : pstate) : pstate :=
  PState (ps_cur st) (ps_stack st) (ps_last st) md (ps_groups st).

Definition open_group (capturing : bool) (st : pstate) : pstate :=
  if capturing then
    PState (Frame [] [] (Some (S (ps_groups st)))) (ps_cur st :: ps_stack st)
           LNone MNormal (S (ps_groups st))
  else
    PState (Frame [] [] None) (ps_cur st :: ps_stack st)
           LNone MNormal (ps_groups st).

Definition close_group (st : pstate) : pstate + perr :=
  match ps_stack st with
  | [] => inr PSyntax
  | parent :: stack' =>
    let body := frame_regex (ps_cur st) in
    let t := match fr_group (ps_cur st) with
             | Some i => Group i body
             | None => body
             end in
    inl (PState (Frame (fr_alts parent) (t :: fr_seq parent) (fr_group parent))
                stack' LAtom MNormal (ps_groups st))
  end.

Definition next_alternative (st : pstate) : pstate :=
  let f := ps_cur st in
  PState (Frame (seq_of (rev (fr_seq f)) :: fr_alts f) [] (fr_group f))
         (ps_stack st) LNone MNormal (ps_groups st).

Definition quantify (min : nat) (max : option nat) (st : pstate) : pstate + perr :=
  match ps_last st, fr_seq (ps_cur st) with
  | LAtom, t :: ts =>
    let f := ps_cur st in
    inl (PState (Frame (fr_alts f) (Quant min max true t :: ts) (fr_group f))
                (ps_stack st) LQuant MNormal (ps_groups st))
  | _, _ => inr PSyntax
  end.

Definition make_lazy (st : pstate) : pstate + perr :=
  match fr_seq (ps_cur st) with
  | Quant min max _ t :: ts =>
    let f := ps_cur st in
    inl (PState (Frame (fr_alts f) (Quant min max false t :: ts) (fr_group f))
                (ps_stack st) LLazy MNormal (ps_groups st))
  | _ => inr PSyntax
  end.

(** SyntaxCharacter, the characters with a meaning of their own in a
    pattern ([\ ^ $ . * + ? ( ) [ ] { } |]). *)
Definition is_syntax (c : char) : bool :=
  existsb (N.eqb c) (lit "\^$.*+?()[]{}|").

Definition step_syntax (st : pstate) (c : char) : pstate + perr :=
  if (c =? ch "\")%N then inl (set_mode MEscape st)
  else if (c =? ch "(")%N then inl (set_mode MParen st)
  else if (c =? ch ")")%N then close_group st
  else if (c =? ch "|")%N then inl (next_alternative st)
  else if (c =? ch "*")%N then quantify 0 None st
  else if (c =? ch "+")%N then quantify 1 None st
  else if (c =? ch "?")%N then
    match ps_last st with
    | LQuant => make_lazy st
    | _ => quantify 0 (Some 1) st
    end
  else if (c =? ch "^")%N then inl (push_assertion Bol st)
  else if (c =? ch "$")%N then inl (push_assertion Eol st)
  else if (c =? ch ".")%N then inl (push_atom (Chr CsDot) st)
  else if (c =? ch "]")%N || (c =? ch "}")%N then inl (push_atom (Chr (CsChar c)) st)
  else inr PUnsupported.

Definition step_normal (st : pstate) (c : char) : pstate + perr :=
  if is_syntax c then step_syntax st c
  else inl (push_atom (Chr (CsChar c)) st).

Definition step_escape (st : pstate) (c : char) : pstate + perr :=
  if (c =? ch "d")%N then inl (push_atom (Chr CsDigit) st)
  else if (c =? ch "D")%N then inl (push_atom (Chr (CsNot CsDigit)) st)
  else if (c =? ch "s")%N then inl (push_atom (Chr CsSpace) st)
  else if (c =? ch "S")%N then inl (push_atom (Chr (CsNot CsSpace)) st)
  else if (c =? ch "w")%N then inl (push_atom (Chr CsWord) st)
  else if (c =? ch "W")%N then inl (push_atom (Chr (CsNot CsWord)) st)
  else if (c =? ch "b")%N then inl (push_assertion WordB st)
  else if (c =? ch "B")%N then inl (push_assertion NotWordB st)
  else if (c =? ch "t")%N then inl (push_atom (Chr (CsChar 9)) st)
  else if (c =? ch "n")%N then inl (push_atom (Chr (CsChar 10)) st)
  else if (c =? ch "v")%N then inl (push_atom (Chr (CsChar 11)) st)
  else if (c =? ch "f")%N then inl (push_atom (Chr (CsChar 12)) st)
  else if (c =? ch "r")%N then inl (push_atom (Chr (CsChar 13)) st)
  else if is_digit c || (c =? ch "c")%N || (c =? ch "x")%N || (c =? ch "u")%N
  then inr PUnsupported
  else inl (push_atom (Chr (CsChar c)) st).

Definition step (st : pstate) (c : char) : pstate + perr :=
  match ps_mode st with
  | MNormal => step_normal st c
  | MEscape => step_escape st c
  | MParen =>
    if (c =? ch "?")%N then inl (set_mode MParenQ st)
    else step_normal (open_group true st) c
  | MParenQ =>
    if (c =? ch ":")%N then inl (open_group false st)
    else if (c =? ch "=")%N || (c =? ch "!")%N || (c =? ch "<")%N
    then inr PUnsupported
    else inr PSyntax
  end.

Fixpoint run (st : pstate) (s : str) : pstate + perr :=
  match s with
  | [] => inl st
  | c :: s' =>
    match step st c with
    | inl st' => run st' s'
    | inr e => inr e
    end
  end.

Definition finish (st : pstate) : compiled :=
  match ps_mode st, ps_stack st with
  | MNormal, [] => Compiled (frame_regex (ps_cur st))
  | _, _ => IllFormed
  end.

Definition RegExp_new (source : str) : compiled :=
  match run pinit source with
  | inl st => finish st
  | inr PSyntax => IllFormed
  | inr PUnsupported => OutsideFragment
  end.

(** *** [String.prototype.match] and [String.prototype.replace]
    with a pattern without flags *)

(** The number of capturing groups of a pattern. *)
Definition ncaptures (r : regex) : nat := list_max (groups r).

Definition digit_value (c : char) : nat := N.to_nat (c - 48).

Section Substitution.
Variable s : str.
Variable mr : match_result.
Variable m : nat.                      (* number of captures *)

(** The text a [$n] reference stands for; an unset capture gives the
    empty string, an index outside [1..m] leaves the reference as it
    is written. *)
Definition capture_ref (index : nat) (ref : str) : str :=
  if (1 <=? index) && (index <=? m) then
    match capture s mr index with
    | Some t => t
    | None => []
    end
  else ref.

(** GetSubstitution, for a match without named groups. *)
Fixpoint get_substitution (tpl : str) : str :=
  match tpl with
  | [] => []
  | c :: t =>
    if negb (c =? ch "$")%N then c :: get_substitution t
    else
      match t with
      | [] => [c]
      | d :: t' =>
        if (d =? ch "$")%N then ch "$" :: get_substitution t'
        else if (d =? ch "`")%N then firstn (m_index mr) s ++ get_substitution t'
        else if (d =? ch "&")%N then matched s mr ++ get_substitution t'
        else if (d =? ch "'")%N then skipn (m_end mr) s ++ get_substitution t'
        else if is_digit d then
          match t' with
          | d2 :: t'' =>
            let two := 10 * digit_value d + digit_value d2 in
            if is_digit d2 && (two <=? m) then
              capture_ref two [c; d; d2] ++ get_substitution t''
            else capture_ref (digit_value d) [c; d] ++ get_substitution t'
          | [] => capture_ref (digit_value d) [c; d] ++ get_substitution t'
          end
        else c :: get_substitution t
      end
  end.
End Substitution.

(** The array [s.match(r)] returns: the matched text and the captures. *)
Record match_array := MatchArray {
  ma_0 : str;
  ma_captures : list (option str)
}.

Definition str_match (s : str) (r : regex) : option match_array :=
  match exec r s with
  | Some mr =>
    Some (MatchArray (matched s mr) (map (capture s mr) (seq 1 (ncaptures r))))
  | None => None
  end.

(** [s.replace(r, tpl)]: the first match is replaced by the expansion
    of the template, the text before and after it is kept. *)
Definition replace (s : str) (r : regex) (tpl : str) : str :=
  match exec r s with
  | Some mr =>
    firstn (m_index mr) s ++ get_substitution s mr (ncaptures r) tpl
      ++ skipn (m_end mr) s
  | None => s
  end.

(** *** The language of a term *)

(** The words a term can consume.  Assertions consume nothing; what
    they require of the context, and the bounds of a quantifier, are
    left out, so this is an upper bound of what the matcher accepts. *)
Inductive matches : regex -> str -> Prop :=
| M_empty : matches Empty []
| M_chr cs c : cset_mem cs c = true -> matches (Chr cs) [c]
| M_seq a b u v : matches a u -> matches b v -> matches (Seq a b) (u ++ v)
| M_alt_l a b u : matches a u -> matches (Alt a b) u
| M_alt_r a b u : matches b u -> matches (Alt a b) u
| M_quant_stop min max g a : matches (Quant min max g a) []
| M_quant_iter min max min' max' g a u v :
    matches a u -> matches (Quant min' max' g a) v ->
    matches (Quant min max g a) (u ++ v)
| M_group i a u : matches a u -> matches (Group i a) u
| M_bol : matches Bol []
| M_eol : matches Eol []
| M_wordb : matches WordB []
| M_notwordb : matches NotWordB [].

(** [y] is [x] moved to the right over [w]. *)
Definition advanced (w : str) (x y : mstate) : Prop :=
  before y = rev w ++ before x /\ rest x = w ++ rest y.

(** Every success of [m] goes through the continuation after a word
    of [P]. *)
Definition steps (P : str -> Prop) (m : mstate -> cont -> option mstate) : Prop :=
  forall x k z, m x k = Some z ->
  exists w y, P w /\ advanced w x y /\ k y = Some z.

(** Two continuations that agree to the right of [x]. *)
Definition agree_from (x : mstate) (k1 k2 : cont) : Prop :=
  forall w y, advanced w x y -> k1 y = k2 y.

(** A matcher that consults its continuation only to the right of
    where it starts. *)
Definition local (m : mstate -> cont -> option mstate) : Prop :=
  forall x k1 k2, agree_from x k1 k2 -> m x k1 = m x k2.

End RegExp.

Import RegExp.

(* ================================================================== *)
(** ** JavaScript numbers and the [<] operator *)

(** A Number is NaN, an infinity or a finite value; finite doubles are
    rationals, and comparison is exact. *)
Inductive number :=
| NaN
| NegInf
| Fin (q : Q)
| PosInf.

(** Number::lessThan; [None] is the undefined result of a comparison
    with NaN. *)
Definition number_lt (a b : number) : option bool :=
  match a, b with
  | NaN, _ | _, NaN => None
  | NegInf, NegInf => Some false
  | NegInf, _ => Some true
  | _, NegInf => Some false
  | PosInf, _ => Some false
  | _, PosInf => Some true
  | Fin p, Fin q => Some (negb (Qle_bool q p))
  end.

(** Comparison of strings, code unit by code unit. *)
Fixpoint str_ltb (a b : str) : bool :=
  match a, b with
  | _, [] => false
  | [], _ :: _ => true
  | x :: a', y :: b' => (x <? y)%N || ((x =? y)%N && str_ltb a' b')
  end.

(** The order of two strings, read off the claim's [end >= start] on
    texts: [a] is a prefix of [b], or at the first place where they
    differ the code unit of [a] is the smaller one. *)
Inductive str_le : str -> str -> Prop :=
| str_le_nil b : str_le [] b
| str_le_lt x y a b : (x < y)%N -> str_le (x :: a) (y :: b)
| str_le_eq x a b : str_le a b -> str_le (x :: a) (x :: b).

(** The order of two numbers that are not NaN, infinities included. *)
Definition number_le (a b : number) : Prop :=
  match a, b with
  | NaN, _ | _, NaN => False
  | NegInf, _ => True
  | _, PosInf => True
  | Fin p, Fin q => (p <= q)%Q
  | _, _ => False
  end.

(* ================================================================== *)
(** ** The helpers of [utils.tsx] *)

(** User-facing effects: the React state setters and callbacks the
    helpers receive, the console and the PPL service. *)
Record VizContainerError := {
  errorMessage : option str;
  errorDetails : option str
}.

Record toast := Toast {
  toast_title : str;
  toast_color : str;
  toast_text : option str;
  toast_side : option str
}.

Inductive effect :=
| SetIsLoading (b : bool)
| SetIsError (e : VizContainerError)
| ConsoleError (msg : str) (err : exn)
| PplFetch (query format : str).          (* [pplService.fetch({query, format})] *)

(** *** External libraries

    [@elastic/datemath] and [moment] resolve and render times; the
    reference to the current time is theirs. *)
Class DateLib := {
  Moment : Type;
  (** [dateMath.parse(text, {roundUp})]; [None] is [undefined]. *)
  dateMath_parse : str -> bool -> option Moment;
  moment_utc : Moment -> Moment;
  moment_format : Moment -> str -> str;
  moment_toString : Moment -> str;
  moment_valueOf : Moment -> number;
  (** ToNumber on strings. *)
  StringToNumber : str -> number
}.

(** *** Constants of [common/constants/shared]

    The three constants are imported from a file that is not among the
    sources; the patterns are regular-expression literals without the
    [g] and [y] flags. *)
Class SharedConstants := {
  PPL_DATE_FORMAT : str;
  PPL_INDEX_REGEX : regex;
  PPL_WHERE_CLAUSE_REGEX : regex
}.

Section Utils.

Context {lib : DateLib} {consts : SharedConstants}.

(** What [convertDateTime] returns: [string | Moment | undefined]. *)
Inductive datetime_value :=
| DtString (s : str)
| DtMoment (m : Moment)
| DtUndefined.

(** ToString, as a template literal applies it. *)
Definition datetime_to_string (v : datetime_value) : str :=
  match v with
  | DtString s => s
  | DtMoment m => moment_toString m
  | DtUndefined => lit "undefined"
  end.

(** [convertDateTime(datetime, isStart = true, formatted = true)] *)
Definition convertDateTime (datetime : str) (isStart formatted : bool)
  : outcome datetime_value :=
  let returnTime :=
    if isStart then dateMath_parse datetime false
    else dateMath_parse datetime true in
  if formatted then
    match returnTime with
    | Some t => Ret (DtString (moment_format (moment_utc t) PPL_DATE_FORMAT))
    | None => Throw TypeError
    end
  else
    Ret (match returnTime with
         | Some t => DtMoment t
         | None => DtUndefined
         end).

(** [updateQuerySpanInterval(query, timestampField, spanParam)]:
    [None] when the pattern built from the field lies outside the
    modelled pattern grammar. *)
Definition span_pattern (timestampField : str) : str :=
  lit "span\(\s*" ++ timestampField ++ lit "\s*,(.*?)\)".

Definition span_replacement (timestampField spanParam : str) : str :=
  lit "span(" ++ timestampField ++ lit "," ++ spanParam ++ lit ")".

Definition updateQuerySpanInterval (query timestampField spanParam : str)
  : option (outcome str) :=
  match RegExp_new (span_pattern timestampField) with
  | Compiled r =>
    Some (Ret (replace query r (span_replacement timestampField spanParam)))
  | IllFormed => Some (Throw SyntaxError)
  | OutsideFragment => None
  end.

(** [queryAccumulator] *)
Definition timeQueryFilter (timestampField : str) (start end_ : datetime_value) : str :=
  lit " | where " ++ timestampField ++ lit " >= '" ++ datetime_to_string start
    ++ lit "' and " ++ timestampField ++ lit " <= '" ++ datetime_to_string end_
    ++ lit "'".

Definition pplFilterQuery (panelFilterQuery : str) : str :=
  if str_eqb panelFilterQuery [] then [] else lit " | " ++ panelFilterQuery.

Definition queryAccumulator
    (originalQuery timestampField startTime endTime panelFilterQuery : str)
  : outcome str :=
  match str_match originalQuery PPL_INDEX_REGEX with
  | None => Throw (JsError (lit "index not found in Query"))
  | Some indexMatchArray =>
    let indexPartOfQuery := ma_0 indexMatchArray in
    let filterPartOfQuery := replace originalQuery PPL_INDEX_REGEX [] in
    let* start := convertDateTime startTime true true in
    let* end_ := convertDateTime endTime false true in
    Ret (indexPartOfQuery ++ timeQueryFilter timestampField start end_
           ++ pplFilterQuery panelFilterQuery ++ filterPartOfQuery)
  end.

(** [pplServiceRequestor]: the request is issued at once; what its
    promise does when it settles is outside this development. *)
Definition pplServiceRequestor (finalQuery type : str) : list effect :=
  [PplFetch finalQuery (lit "jdbc")].

(** [getQueryResponse(..., filterQuery = '', timestampField = 'timestamp')],
    as the list of the effects it performs, in order. *)
Definition getQueryResponse
    (query type startTime endTime filterQuery timestampField : str)
  : list effect :=
  [SetIsLoading true; SetIsError (Build_VizContainerError None None)]
  ++ match queryAccumulator query timestampField startTime endTime filterQuery with
     | Throw error =>
       let errorMessage := lit "Issue in building final query" in
       [SetIsError (Build_VizContainerError (Some errorMessage) None);
        ConsoleError errorMessage error;
        SetIsLoading false]
     | Ret finalQuery => pplServiceRequestor finalQuery type
     end.

Definition is_fetch (e : effect) : bool :=
  match e with
  | PplFetch _ _ => true
  | _ => false
  end.

(** The effects of a call whose query could not be built. *)
Definition build_failure (error : exn) : list effect :=
  [SetIsLoading true;
   SetIsError {| errorMessage := None; errorDetails := None |};
   SetIsError {| errorMessage := Some (lit "Issue in building final query");
                 errorDetails := None |};
   ConsoleError (lit "Issue in building final query") error;
   SetIsLoading false].

(** [isDateValid(start, end, setToast, side)] *)
Inductive time_arg :=
| TString (s : str)
| TMoment (m : Moment)
| TUndefined.

Definition to_number (a : time_arg) : number :=
  match a with
  | TString s => StringToNumber s
  | TMoment m => moment_valueOf m
  | TUndefined => NaN
  end.

(** [a < b]: two strings compare as strings, anything else as
    numbers; an undefined comparison is [false]. *)
Definition js_lt (a b : time_arg) : bool :=
  match a, b with
  | TString s, TString t => str_ltb s t
  | _, _ =>
    match number_lt (to_number a) (to_number b) with
    | Some r => r
    | None => false
    end
  end.

(** [a >= b] *)
Definition js_ge (a b : time_arg) : bool :=
  match a, b with
  | TString s, TString t => negb (str_ltb s t)
  | _, _ =>
    match number_lt (to_number a) (to_number b) with
    | Some r => negb r
    | None => false
    end
  end.

Definition isDateValid (start end_ : time_arg) (side : option str)
  : bool * list toast :=
  if js_lt end_ start then
    (false, [Toast (lit "Time range entered is invalid") (lit "danger") None side])
  else (true, []).

(** A pair of resolved times: two formatted strings, or two valid
    moments. *)
Inductive resolved_pair : time_arg -> time_arg -> Prop :=
| resolved_strings s e : resolved_pair (TString s) (TString e)
| resolved_moments m n :
    moment_valueOf m <> NaN -> moment_valueOf n <> NaN ->
    resolved_pair (TMoment m) (TMoment n).

(** The claim's [end >= start] on a pair of resolved times: the order
    of the texts for two strings, the order of the times in
    milliseconds for two moments. *)
Inductive ends_not_before : time_arg -> time_arg -> Prop :=
| enb_strings s e : str_le s e -> ends_not_before (TString s) (TString e)
| enb_moments m n :
    number_le (moment_valueOf m) (moment_valueOf n) ->
    ends_not_before (TMoment m) (TMoment n).

(** [isPPLFilterValid(query, setToast)] *)
Definition checkIndexExists (query : str) : bool := test PPL_INDEX_REGEX query.

Definition checkWhereClauseExists (query : str) : bool :=
  test PPL_WHERE_CLAUSE_REGEX query.

Definition truthy (s : str) : bool := negb (str_eqb s []).

Definition isPPLFilterValid (query : str) : bool * list toast :=
  if checkIndexExists query then
    (false, [Toast (lit "Please remove index from PPL Filter") (lit "danger") None None])
  else if truthy query && negb (checkWhereClauseExists query) then
    (false, [Toast (lit "PPL filters should start with a where clause")
                   (lit "danger") None None])
  else (true, []).

End Utils.

(** The term a pattern text stands for. *)
Definition compile_pattern (source : str) : regex :=
  match RegExp_new source with
  | Compiled r => r
  | _ => Empty
  end.

(** Modelled from the spec: [PPL_INDEX_REGEX] is declared in
    [common/constants/shared], which is not among the sources.  The
    spec describes it as a fixed pattern anchored at the start of the
    query that matches a [source = <identifier>] form, and the filter
    validator as rejecting a source or index specification. *)
Definition PPL_INDEX_REGEX_spec : regex :=
  Eval vm_compute in compile_pattern (lit "^(source|index)\s*=\s*\w+").

(** Modelled from the spec: [PPL_WHERE_CLAUSE_REGEX] is declared in
    [common/constants/shared], which is not among the sources.  The
    spec requires a non-empty filter to begin with a [where] keyword. *)
Definition PPL_WHERE_CLAUSE_REGEX_spec : regex :=
  Eval vm_compute in compile_pattern (lit "^\s*where\s+").

(** Modelled from the spec: [PPL_DATE_FORMAT], of the same file, is the
    fixed layout [YYYY-MM-DD HH:mm:ss]. *)
Definition PPL_DATE_FORMAT_spec : str := lit "YYYY-MM-DD HH:mm:ss".

Definition spec_constants (date_format : str) : SharedConstants :=
  {| PPL_DATE_FORMAT := date_format;
     PPL_INDEX_REGEX := PPL_INDEX_REGEX_spec;
     PPL_WHERE_CLAUSE_REGEX := PPL_WHERE_CLAUSE_REGEX_spec |}.

(** *** Span directives

    The pattern [updateQuerySpanInterval] builds for a field name of
    ordinary characters, and the text it stands for. *)

Definition lits (s : str) : list regex := map (fun c => Chr (CsChar c)) s.

Definition ws_star : regex := Quant 0 None true (Chr CsSpace).

Definition span_tail : list regex :=
  [ws_star; Chr (CsChar (ch ","));
   Group 1 (Seq (Quant 0 None false (Chr CsDot)) Empty);
   Chr (CsChar (ch ")"))].

Definition span_regex (timestampField : str) : regex :=
  seq_of (lits (lit "span(") ++ ws_star :: lits timestampField ++ span_tail).

(** A character that stands for itself in a pattern and is not
    whitespace. *)
Definition plain_char (c : char) : bool :=
  negb (is_syntax c) && negb (is_whitespace c).

Definition plain_field (timestampField : str) : Prop :=
  forallb plain_char timestampField = true.

Definition no_line_terminator (s : str) : bool :=
  forallb (fun c => negb (is_line_terminator c)) s.

Definition no_dollar (s : str) : bool :=
  forallb (fun c => negb (c =? ch "$")%N) s.

Definition no_close_paren (s : str) : bool :=
  forallb (fun c => negb (c =? ch ")")%N) s.

(** The text of a span directive for a field: [span(], whitespace, the
    field, whitespace, a comma, the interval and [)]. *)
Definition directive_text (timestampField ws1 ws2 interval : str) : str :=
  lit "span(" ++ ws1 ++ timestampField ++ ws2 ++ lit "," ++ interval ++ lit ")".

Definition directive (timestampField d : str) : Prop :=
  exists ws1 ws2 interval,
    d = directive_text timestampField ws1 ws2 interval
    /\ forallb is_whitespace ws1 = true
    /\ forallb is_whitespace ws2 = true
    /\ no_line_terminator interval = true.

(** A query in which a directive for the field occurs. *)
Definition has_directive (timestampField query : str) : Prop :=
  exists pre d post, query = pre ++ d ++ post /\ directive timestampField d.

(** No directive for the field starts within the first [n] code units. *)
Definition no_directive_before (timestampField query : str) (n : nat) : Prop :=
  forall p d r,
    query = p ++ d ++ r -> directive timestampField d -> n <= length p.

(** *** Instances the statements are exercised on *)

(** The array [q.match(new RegExp(src))], as text. *)
Definition captures_of (src q : string) : option (list (option string)) :=
  match RegExp_new (lit src) with
  | Compiled r =>
    match str_match (lit q) r with
    | Some a =>
      Some (map (option_map (fun s => string_of_list_ascii (map ascii_of_N s)))
                (Some (ma_0 a) :: ma_captures a))
    | None => None
    end
  | _ => None
  end.


(** A date library with one moment per millisecond count, in which it
    is the last second of 1970-01-01: [now] is that moment, with or
    without round-up, [now/d] is the start of the day, or its last
    millisecond with round-up, and every other text is one the parser
    gives up on, as it does on [now-]. *)
Definition sample_lib : DateLib :=
  {| Moment := Z;
     dateMath_parse := fun text roundUp =>
       if str_eqb text (lit "now") then Some 86399000%Z
       else if str_eqb text (lit "now/d")
       then Some (if roundUp then 86399999 else 0)%Z
       else None;
     moment_utc := fun m => m;
     moment_format := fun m _ =>
       if (m <? 86399000)%Z then lit "1970-01-01 00:00:00"
       else lit "1970-01-01 23:59:59";
     moment_toString := fun _ => lit "Thu Jan 01 1970";
     moment_valueOf := fun m => Fin (inject_Z m);
     StringToNumber := fun _ => NaN |}.

Definition sample_constants : SharedConstants :=
  spec_constants PPL_DATE_FORMAT_spec.

(** *** [mergeLayoutAndVisualizations] *)

(** [for (let i = start; i < start + count; i++) body], threading the
    state the body updates. *)
Fixpoint for_loop {St : Type} (count i : nat) (body : nat -> St -> outcome St)
    (st : St) : outcome St :=
  match count with
  | O => Ret st
  | S count' => let* st' := body i st in for_loop count' (S i) body st'
  end.

(** [a[i].field]: reading a field of an element that is not there
    throws. *)
Definition element {A : Type} (a : list A) (i : nat) : outcome A :=
  match nth_error a i with
  | Some v => Ret v
  | None => Throw TypeError
  end.

(** Running a body over the elements of a list, left to right. *)
Fixpoint foldM {A St : Type} (f : A -> St -> outcome St) (a : list A) (st : St)
  : outcome St :=
  match a with
  | [] => Ret st
  | v :: a' => let* st' := f v st in foldM f a' st'
  end.

Section Merge.

(** The fields of [VisualizationType] and of react-grid-layout's
    [Layout] other than the ones the merge reads or writes. *)
Variable VizRest LayoutRest : Type.

Record VisualizationType := {
  viz_id : str;
  viz_x : number;
  viz_y : number;
  viz_w : number;
  viz_h : number;
  viz_rest : VizRest
}.

Record Layout := {
  lay_i : str;
  lay_x : number;
  lay_y : number;
  lay_w : number;
  lay_h : number;
  lay_rest : LayoutRest
}.

(** [{ ...v, x: l.x, y: l.y, w: l.w, h: l.h }] *)
Definition with_layout (v : VisualizationType) (l : Layout) : VisualizationType :=
  {| viz_id := viz_id v;
     viz_x := lay_x l; viz_y := lay_y l; viz_w := lay_w l; viz_h := lay_h l;
     viz_rest := viz_rest v |}.

(** The result is the list handed to [setPanelVisualizations]. *)
Definition mergeLayoutAndVisualizations
    (layout : list Layout) (newVisualizationList : list VisualizationType)
  : outcome (list VisualizationType) :=
  for_loop (length newVisualizationList) 0
    (fun i newPanelVisualizations =>
       for_loop (length layout) 0
         (fun j newPanelVisualizations =>
            let* v := element newVisualizationList i in
            let* l := element layout j in
            if str_eqb (viz_id v) (lay_i l)
            then Ret (newPanelVisualizations ++ [with_layout v l])
            else Ret newPanelVisualizations)
         newPanelVisualizations)
    [].

(** The body of the inner loop, on the elements it reads. *)
Definition push_match (v : VisualizationType) (l : Layout)
    (acc : list VisualizationType) : outcome (list VisualizationType) :=
  if str_eqb (viz_id v) (lay_i l) then Ret (acc ++ [with_layout v l]) else Ret acc.

(** The merge as the claim words it: every visualization, in list
    order, paired with each layout item of the same id. *)
Definition matching_pairs
    (layout : list Layout) (vs : list VisualizationType)
  : list VisualizationType :=
  flat_map (fun v =>
              map (with_layout v)
                  (filter (fun l => str_eqb (viz_id v) (lay_i l)) layout))
           vs.

End Merge.

(* ================================================================== *)
(** ** The other helpers of [utils.tsx] *)

(** [isNameValid(name)] *)
Definition isNameValid (name : str) : bool :=
  if (50 <=? length name) || (length name =? 0) then false else true.

(** *** Recently used time ranges *)

(** EUI's [DurationRange]: [{ start, end, label? }]. *)
Record DurationRange := {
  dr_start : str;
  dr_end : str;
  dr_label : option str
}.

(** The object literal [{ start, end }]. *)
Definition range_of (start end_ : str) : DurationRange :=
  {| dr_start := start; dr_end := end_; dr_label := None |}.

Definition rejectRecentRange (rangeList : list DurationRange)
    (toReject : DurationRange) : list DurationRange :=
  filter (fun r => negb (str_eqb (dr_start r) (dr_start toReject)
                         && str_eqb (dr_end r) (dr_end toReject)))
         rangeList.

Definition prependRecentlyUsedRange (start end_ : str)
    (recentlyUsedRanges : list DurationRange) : list DurationRange :=
  let deduplicatedRanges :=
    rejectRecentRange recentlyUsedRanges (range_of start end_) in
  range_of start end_ :: deduplicatedRanges.

(** What [onTimeChange] returns: [{ start, end, updatedRanges }]. *)
Record TimeChange := {
  tc_start : str;
  tc_end : str;
  tc_updatedRanges : list DurationRange
}.

Definition onTimeChange (start end_ : str)
    (recentlyUsedRanges : list DurationRange) : TimeChange :=
  let updatedRanges :=
    filter (fun recentlyUsedRange =>
              let isDuplicate :=
                str_eqb (dr_start recentlyUsedRange) start
                && str_eqb (dr_end recentlyUsedRange) end_ in
              negb isDuplicate)
           recentlyUsedRanges in
  (* [updatedRanges.unshift({ start, end })] *)
  {| tc_start := start; tc_end := end_;
     tc_updatedRanges := range_of start end_ :: updatedRanges |}.

(** The key two ranges are compared by. *)
Definition range_key (r : DurationRange) : str * str := (dr_start r, dr_end r).

(** The test on [r.start === start && r.end === end]. *)
Definition same_key (start end_ : str) (r : DurationRange) : bool :=
  str_eqb (dr_start r) start && str_eqb (dr_end r) end_.

(** *** JSON values and what [JSON.parse] returns *)

#[warnings="-register-all"]
Inductive json :=
| JNull
| JBool (b : bool)
| JNum (n : number)
| JStr (s : str)
| JArr (items : list json)
| JObj (fields : list (str * json)).

Fixpoint lookup_field (key : str) (fields : list (str * json)) : option json :=
  match fields with
  | [] => None
  | (k, v) :: fields' => if str_eqb k key then Some v else lookup_field key fields'
  end.

(** [v.key] for a key that is neither an index nor the name of a
    built-in property: [undefined] ([None]) unless [v] is an object
    that has the key; reading a property of [null] or [undefined]
    throws. *)
Definition get_member (v : option json) (key : str) : outcome (option json) :=
  match v with
  | None | Some JNull => Throw TypeError
  | Some (JObj fields) => Ret (lookup_field key fields)
  | Some _ => Ret None
  end.

(** ToBoolean *)
Definition number_truthy (n : number) : bool :=
  match n with
  | NaN => false
  | Fin q => negb (Qeq_bool q 0)
  | _ => true
  end.

Definition json_truthy (v : option json) : bool :=
  match v with
  | None | Some JNull => false
  | Some (JBool b) => b
  | Some (JNum n) => number_truthy n
  | Some (JStr s) => truthy s
  | Some _ => true
  end.

(** *** The PPL request once it settles *)

(** The platform the helpers run on: the rows a PPL request resolves
    to, the error a saved-object request rejects with, the data of an
    explorer tab, React elements, two fields of a saved object that
    are only copied, [JSON.parse], and lodash's [isEmpty] on the data
    of a tab. *)
Class Platform := {
  Response : Type;
  GetError : Type;
  TabData : Type;
  ReactElement : Type;
  DateRange : Type;               (* [selected_date_range] of a saved object *)
  SelectedFields : Type;          (* [selected_fields] of a saved object *)
  JSON_parse : str -> outcome json;
  isEmpty_data : TabData -> bool
}.

(** The value a request rejects with: [error.body] may be missing, and
    so may [error.body.message]. *)
Record ErrorBody := { eb_message : option str }.
Record FetchError := { fe_body : option ErrorBody }.

Section Panels.

Context {lib : DateLib} {consts : SharedConstants} {platform : Platform}.

(** What the [catch] blocks hand to [console.error]: an error thrown
    in the [then] callback, or the value the request rejected with. *)
Inductive caught :=
| CaughtExn (e : exn)
| CaughtRejection (e : GetError).

Inductive fetch_settlement :=
| FetchFulfilled (res : option Response)      (* [undefined] is [None] *)
| FetchRejected (error : FetchError).

(** A saved visualization as the saved-object store holds it; the
    optional fields are [None] when the object lacks the property. *)
Record StoredVisualization := {
  sv_name : str;
  sv_query : str;
  sv_type : str;
  sv_selected_timestamp_name : str;         (* [selected_timestamp.name] *)
  sv_selected_date_range : DateRange;
  sv_selected_fields : SelectedFields;
  sv_user_configs : option str;
  sv_sub_type : option str;
  sv_units_of_measure : option str;
  sv_application_id : option str
}.

(** [ObservabilitySavedVisualization] *)
Record ObservabilitySavedVisualization := {
  objectId : str;
  savedVisualization : StoredVisualization
}.

(** [{ ...visualization, id, timeField }], what [fetchVisualizationById]
    builds. *)
Record FetchedVisualization := {
  fv_visualization : StoredVisualization;
  fv_id : str;
  fv_timeField : str
}.

(** What [createCatalogVisualizationMetaData] returns. *)
Record CatalogMetaData := {
  cm_name : str;
  cm_description : str;
  cm_query : str;
  cm_type : str;
  cm_selected_date_range : str * str * str;        (* start, end, text *)
  cm_selected_timestamp : str * str;               (* name, type *)
  cm_selected_fields : str * list str              (* text, tokens *)
}.

(** The argument of [setVisualizationMetaData]: the fetched
    visualization or the catalog meta data, with its [query]
    replaced. *)
Inductive meta_data :=
| MetaSaved (visualization : FetchedVisualization) (query : str)
| MetaCatalog (metaData : CatalogMetaData) (query : str).

(** The effects of the panel helpers: the ones of [getQueryResponse]
    and the further state setters. *)
Inductive panel_effect :=
| Eff (e : effect)
| SetVisualizationData (res : option Response)
| SetIsErrorReason (errorMessage : json) (errorDetails : option json)
| ConsoleErrorBody (body : ErrorBody)
| ConsoleErrorCaught (msg : str) (err : caught)
| SetVisualizationTitle (title : str)
| SetVisualizationType (type : str)
| SetVisualizationMetaData (metaData : meta_data).

(** The [catch] callback of [pplServiceRequestor]. *)
Definition fetch_catch (error : FetchError) : outcome (list panel_effect) :=
  let* body := match fe_body error with
               | Some b => Ret b
               | None => Throw TypeError
               end in
  let* errorMessage :=
    JSON_parse (match eb_message body with
                | Some m => m
                | None => lit "undefined"
                end) in
  let* err := get_member (Some errorMessage) (lit "error") in
  let* reason := get_member err (lit "reason") in
  let* details := get_member err (lit "details") in
  Ret [SetIsErrorReason
         (match reason with
          | Some v => if json_truthy reason then v
                      else JStr (lit "Issue in fetching visualization")
          | None => JStr (lit "Issue in fetching visualization")
          end)
         details;
       ConsoleErrorBody body].

(** What [pplServiceRequestor] does after the request has settled: the
    [then] or [catch] callback, then the [finally] callback; the second
    component is the error its promise rejects with, if any. *)
Definition pplServiceRequestor_settled (settlement : fetch_settlement)
  : list panel_effect * option exn :=
  match settlement with
  | FetchFulfilled res =>
    ((match res with
      | None => [Eff (SetIsError
                  {| errorMessage := Some (lit "Please check the validity of PPL Filter");
                     errorDetails := None |})]
      | Some _ => []
      end)
     ++ [SetVisualizationData res]
     ++ [Eff (SetIsLoading false)], None)
  | FetchRejected error =>
    match fetch_catch error with
    | Ret effects => (effects ++ [Eff (SetIsLoading false)], None)
    | Throw e => ([Eff (SetIsLoading false)], Some e)
    end
  end.

(** A whole run of [getQueryResponse]: its own effects, then those of
    the request it issued, if it issued one. *)
Definition getQueryResponse_run
    (query type startTime endTime filterQuery timestampField : str)
    (settlement : fetch_settlement) : list panel_effect :=
  map Eff (getQueryResponse query type startTime endTime filterQuery timestampField)
  ++ match queryAccumulator query timestampField startTime endTime filterQuery with
     | Ret _ => fst (pplServiceRequestor_settled settlement)
     | Throw _ => []
     end.

(** [fetchVisualizationById]: the saved-object request either resolves
    to the [observabilityObjectList] or rejects. *)
Inductive get_settlement :=
| GetFulfilled (observabilityObjectList : list ObservabilitySavedVisualization)
| GetRejected (err : GetError).

Definition could_not_locate (savedVisualizationId : str) (err : caught)
  : list panel_effect :=
  [Eff (SetIsError
     {| errorMessage :=
          Some (lit "Could not locate saved visualization id: "
                  ++ savedVisualizationId);
        errorDetails := None |});
   ConsoleErrorCaught (lit "Issue in fetching the saved Visualization by Id") err].

(** The result is [None] for the empty object [{}]. *)
Definition fetchVisualizationById (savedVisualizationId : str)
    (settlement : get_settlement)
  : option FetchedVisualization * list panel_effect :=
  match settlement with
  | GetFulfilled res =>
    match element res 0 with
    | Ret first =>
      let visualization := savedVisualization first in
      (Some {| fv_visualization := visualization;
               fv_id := objectId first;
               fv_timeField := sv_selected_timestamp_name visualization |}, [])
    | Throw e => (None, could_not_locate savedVisualizationId (CaughtExn e))
    end
  | GetRejected err =>
    (None, could_not_locate savedVisualizationId (CaughtRejection err))
  end.

(** The helpers that render a panel run until their promise settles:
    the effects, and the error the promise rejects with, if any;
    [None] when the span pattern lies outside the modelled pattern
    grammar. *)
Definition renderSavedVisualization
    (savedVisualizationId startTime endTime filterQuery : str)
    (spanParam : option str) (settlement : get_settlement)
  : option (list panel_effect * option exn) :=
  let start :=
    [Eff (SetIsLoading true);
     Eff (SetIsError {| errorMessage := None; errorDetails := None |})] in
  let (fetched, fetch_effects) :=
    fetchVisualizationById savedVisualizationId settlement in
  match fetched with
  | None => Some (start ++ fetch_effects ++ [Eff (SetIsLoading false)], None)
  | Some visualization =>
    let stored := fv_visualization visualization in
    let title :=
      if truthy (sv_name stored) then [SetVisualizationTitle (sv_name stored)]
      else [] in
    let type :=
      if truthy (sv_type stored) then [SetVisualizationType (sv_type stored)]
      else [] in
    let continue := fun updatedVisualizationQuery : str =>
      (start ++ fetch_effects ++ title ++ type
       ++ [SetVisualizationMetaData
             (MetaSaved visualization updatedVisualizationQuery)]
       ++ map Eff (getQueryResponse updatedVisualizationQuery (sv_type stored)
                     startTime endTime filterQuery (fv_timeField visualization)),
       None) in
    match spanParam with
    | Some spanParam =>
      match updateQuerySpanInterval (sv_query stored)
                                    (fv_timeField visualization) spanParam with
      | Some (Ret updatedVisualizationQuery) =>
        Some (continue updatedVisualizationQuery)
      | Some (Throw e) => Some (start ++ fetch_effects ++ title ++ type, Some e)
      | None => None
      end
    | None => Some (continue (sv_query stored))
    end
  end.

Definition createCatalogVisualizationMetaData
    (catalogSource visualizationQuery visualizationType visualizationTimeField : str)
  : CatalogMetaData :=
  {| cm_name := catalogSource;
     cm_description := [];
     cm_query := visualizationQuery;
     cm_type := visualizationType;
     cm_selected_date_range := (lit "now/y", lit "now", []);
     cm_selected_timestamp := (visualizationTimeField, lit "timestamp");
     cm_selected_fields := ([], []) |}.

(** The query [renderCatalogVisualization] starts from. *)
Definition catalog_query (catalogSource : str) : str :=
  lit "source = " ++ catalogSource ++ lit " | stats avg(@value) by span("
    ++ lit "@timestamp" ++ lit ",1h)".

Definition renderCatalogVisualization
    (catalogSource startTime endTime filterQuery : str) (spanParam : option str)
  : option (list panel_effect * option exn) :=
  let start :=
    [Eff (SetIsLoading true);
     Eff (SetIsError {| errorMessage := None; errorDetails := None |})] in
  let visualizationType := lit "line" in
  let visualizationTimeField := lit "@timestamp" in
  let continue := fun visualizationQuery : str =>
    let visualizationMetaData :=
      createCatalogVisualizationMetaData catalogSource visualizationQuery
        visualizationType visualizationTimeField in
    (start
     ++ [SetVisualizationTitle catalogSource;
         SetVisualizationType visualizationType;
         SetVisualizationMetaData (MetaCatalog visualizationMetaData visualizationQuery)]
     ++ map Eff (getQueryResponse visualizationQuery visualizationType
                   startTime endTime filterQuery visualizationTimeField),
     None) in
  match spanParam with
  | Some spanParam =>
    match updateQuerySpanInterval (catalog_query catalogSource)
                                  visualizationTimeField spanParam with
    | Some (Ret visualizationQuery) => Some (continue visualizationQuery)
    | Some (Throw e) => Some (start, Some e)
    | None => None
    end
  | None => Some (continue (catalog_query catalogSource))
  end.

(** What an effect does, for counting. *)
Definition sets_loading (b : bool) (e : panel_effect) : bool :=
  match e with
  | Eff (SetIsLoading b') => Bool.eqb b b'
  | _ => false
  end.

Definition sends_request (e : panel_effect) : bool :=
  match e with
  | Eff e' => is_fetch e'
  | _ => false
  end.

Definition sets_data (e : panel_effect) : bool :=
  match e with
  | SetVisualizationData _ => true
  | _ => false
  end.

Definition reports_error (e : panel_effect) : bool :=
  match e with
  | Eff (SetIsError {| errorMessage := Some _ |}) => true
  | SetIsErrorReason _ _ => true
  | _ => false
  end.

Definition sets_meta_data (e : panel_effect) : bool :=
  match e with
  | SetVisualizationMetaData _ => true
  | _ => false
  end.

(** [parseSavedVisualizations]: the panel's view of a saved object. *)
Record SavedVisualizationType := {
  svt_id : str;
  svt_name : str;
  svt_query : str;
  svt_type : str;
  svt_timeField : str;
  svt_selected_date_range : DateRange;
  svt_selected_fields : SelectedFields;
  svt_user_configs : json;
  svt_sub_type : str;
  svt_units_of_measure : str;
  svt_application_id : option str          (* [None]: the key is absent *)
}.

Definition option_truthy (s : option str) : bool :=
  match s with
  | Some t => truthy t
  | None => false
  end.

Definition parseSavedVisualizations (visualization : ObservabilitySavedVisualization)
  : outcome SavedVisualizationType :=
  let stored := savedVisualization visualization in
  let* user_configs :=
    match sv_user_configs stored with
    | Some text => if truthy text then JSON_parse text else Ret (JObj [])
    | None => Ret (JObj [])
    end in
  Ret {| svt_id := objectId visualization;
         svt_name := sv_name stored;
         svt_query := sv_query stored;
         svt_type := sv_type stored;
         svt_timeField := sv_selected_timestamp_name stored;
         svt_selected_date_range := sv_selected_date_range stored;
         svt_selected_fields := sv_selected_fields stored;
         svt_user_configs := user_configs;
         svt_sub_type := match sv_sub_type stored with
                         | Some t => t
                         | None => []
                         end;
         svt_units_of_measure := match sv_units_of_measure stored with
                                 | Some t => t
                                 | None => []
                                 end;
         svt_application_id :=
           if option_truthy (sv_application_id stored)
           then sv_application_id stored else None |}.

End Panels.

(** *** The toasts and tabs of the event-analytics page *)

Section EventAnalytics.

Context {platform : Platform}.

(** [ReactChild] *)
Inductive ReactChild :=
| ChildString (s : str)
| ChildNumber (n : number)
| ChildElement (e : ReactElement).

Definition child_truthy (text : option ReactChild) : bool :=
  match text with
  | None => false
  | Some (ChildString s) => truthy s
  | Some (ChildNumber n) => number_truthy n
  | Some (ChildElement _) => true
  end.

Record EaToast := {
  t_id : str;
  t_title : str;
  t_text : ReactChild;
  t_color : str
}.

(** [setToast(title, color = 'success', text?, side?)], run in a render
    whose state is [toasts] at the time [now] ([new Date().toISOString()]):
    the list it hands to [setToasts]. *)
Definition setToast (toasts : list EaToast) (now title : str)
    (color : option str) (text : option ReactChild) (side : option str)
  : list EaToast :=
  let color := match color with Some c => c | None => lit "success" end in
  let text := if negb (child_truthy text) then ChildString []
              else match text with Some t => t | None => ChildString [] end in
  toasts ++ [{| t_id := now; t_title := title; t_text := text; t_color := color |}].

(** The [dismissToast] callback. *)
Definition dismissToast (toasts : list EaToast) (removedToast : EaToast)
  : list EaToast :=
  filter (fun toast => negb (str_eqb (t_id toast) (t_id removedToast))) toasts.

(** [for (let i = start; i < start + count; i++) body], where the body
    may [break]. *)
Fixpoint for_loop_break {St : Type} (count i : nat)
    (body : nat -> St -> outcome (St * bool)) (st : St) : outcome St :=
  match count with
  | O => Ret st
  | S count' =>
    let* r := body i st in
    if snd r then Ret (fst r) else for_loop_break count' (S i) body (fst r)
  end.

(** An entry of [queries]: its [RAW_QUERY] property. *)
Record QueryEntry := { raw_query : option str }.

(** lodash's [isEmpty] on a string or [undefined]. *)
Definition isEmpty_string (s : option str) : bool :=
  match s with
  | Some t => str_eqb t []
  | None => true
  end.

Definition isEmpty_tab (d : option TabData) : bool :=
  match d with
  | Some data => isEmpty_data data
  | None => true
  end.

(** The test of [getExistingEmptyTab] on one tab. *)
Definition tab_is_empty (queries : str -> option QueryEntry)
    (explorerData : str -> option TabData) (tid : str) : outcome bool :=
  match queries tid with
  | Some entry =>
    Ret (isEmpty_string (raw_query entry) && isEmpty_tab (explorerData tid))
  | None => Throw TypeError
  end.

(** The body of the loop of [getExistingEmptyTab]; the flag says
    whether it ran into [break]. *)
Definition tab_body (queries : str -> option QueryEntry)
    (explorerData : str -> option TabData) (tabIds : list str)
    (i : nat) (emptyTabId : str) : outcome (str * bool) :=
  let* tid := element tabIds i in
  let* empty := tab_is_empty queries explorerData tid in
  if empty then Ret (tid, true) else Ret (emptyTabId, false).

Definition getExistingEmptyTab (tabIds : list str)
    (queries : str -> option QueryEntry) (explorerData : str -> option TabData)
  : outcome str :=
  for_loop_break (length tabIds) 0 (tab_body queries explorerData tabIds) [].

End EventAnalytics.

(** *** Where the text [span(] starts *)

Fixpoint prefixb (w s : str) : bool :=
  match w, s with
  | [], _ => true
  | _ :: _, [] => false
  | c :: w', d :: s' => (c =? d)%N && prefixb w' s'
  end.

(** [span(] starts at none of the first [n] positions of [q]. *)
Definition span_free_before (q : str) (n : nat) : bool :=
  forallb (fun i => negb (prefixb (lit "span(") (skipn i q))) (seq 0 n).

Definition no_open_paren (s : str) : bool :=
  forallb (fun c => negb (c =? ch "(")%N) s.

(** The directive that follows [pre] is the first place of the query
    at which [span(] starts. *)
Definition first_span_after (pre : str) : bool :=
  span_free_before (pre ++ lit "span(") (length pre).

(** *** A platform the statements are exercised on *)

(** Its [JSON.parse] rejects the empty text and reads any other text
    as the reason and the details of an error; the data of a tab is a
    list of rows. *)
Definition sample_platform : Platform :=
  {| Response := list str;
     GetError := str;
     TabData := list str;
     ReactElement := unit;
     DateRange := unit;
     SelectedFields := unit;
     JSON_parse := fun text =>
       if str_eqb text [] then Throw SyntaxError
       else Ret (JObj [(lit "error",
                        JObj [(lit "reason", JStr text);
                              (lit "details", JStr text)])]);
     isEmpty_data := fun rows => match rows with [] => true | _ => false end |}.

Definition sample_stored (timeField : str) : @StoredVisualization sample_platform :=
  @Build_StoredVisualization sample_platform
    (lit "Average bytes")
    (lit "source = logs | stats avg(bytes) by span(timestamp,1d)")
    (lit "line") timeField tt tt None None None None.

Definition sample_saved (timeField : str)
  : @ObservabilitySavedVisualization sample_platform :=
  @Build_ObservabilitySavedVisualization sample_platform
    (lit "viz-1") (sample_stored timeField).

Definition sample_toast (id : str) : @EaToast sample_platform :=
  @Build_EaToast sample_platform id (lit "Saved") (ChildString []) (lit "success").

(** Three tabs: one with a query and data, an empty one, and one that
    has no entry. *)
Definition sample_queries (tid : str) : option QueryEntry :=
  if str_eqb tid (lit "tab-1") then Some {| raw_query := Some (lit "source = logs") |}
  else if str_eqb tid (lit "tab-2") then Some {| raw_query := Some [] |}
  else None.

Definition sample_explorerData (tid : str) : option (@TabData sample_platform) :=
  if str_eqb tid (lit "tab-1") then Some [lit "row"] else None.

(** Two panels and their layout items, in the other order. *)
Definition sample_visualization (id : str) : VisualizationType unit :=
  {| viz_id := id;
     viz_x := Fin 0; viz_y := Fin 0; viz_w := Fin 6; viz_h := Fin 4;
     viz_rest := tt |}.

Definition sample_layout_item (id : str) (x : Z) : Layout unit :=
  {| lay_i := id;
     lay_x := Fin (inject_Z x); lay_y := Fin 0; lay_w := Fin 6; lay_h := Fin 4;
     lay_rest := tt |}.

Definition sample_layout : list (Layout unit) :=
  [sample_layout_item (lit "b") 0; sample_layout_item (lit "a") 6].

Definition sample_visualizations : list (VisualizationType unit) :=
  [sample_visualization (lit "a"); sample_visualization (lit "b")].

(* ================================================================== *)
(** * Properties *)

(** ** The pattern compiler and [replace] on examples *)

Example ex_compile :
  RegExp_new (lit "a(b|c\s*?)+$") =
  Compiled (Seq (Chr (CsChar 97))
    (Seq (Quant 1 None true (Group 1
       (Alt (Seq (Chr (CsChar 98)) Empty)
            (Seq (Chr (CsChar 99)) (Seq (Quant 0 None false (Chr CsSpace)) Empty)))))
    (Seq Eol Empty))).
Proof. reflexivity. Qed.

Example ex_replace :
  match RegExp_new (lit "(a+)(b)?") with
  | Compiled r => replace (lit "xxaab-aab") r (lit "[$2|$1|$&|$$|$3|$'|$`]")
  | _ => []
  end = lit "xx[b|aa|aab|$|$3|-aab|xx]-aab".
Proof. reflexivity. Qed.

(** The examples of the ECMAScript specification on backtracking,
    alternation and the captures of a repeated group. *)
Example es_repeated_group_captures :
  captures_of "(z)((a+)?(b+)?(c))*" "zaacbbbcac"
  = Some [Some "zaacbbbcac"; Some "z"; Some "ac"; Some "a"; None; Some "c"]%string.
Proof. reflexivity. Qed.

Example es_empty_iteration :
  captures_of "(a*)*" "b" = Some [Some ""; None]%string.
Proof. reflexivity. Qed.

Example es_alternation_order :
  captures_of "((a)|(ab))((c)|(bc))" "abc"
  = Some [Some "abc"; Some "a"; Some "a"; None; Some "bc"; None; Some "bc"]%string.
Proof. reflexivity. Qed.

Example es_lazy_quantifiers :
  captures_of "a+?b*?" "aabb" = Some [Some "a"]%string.
Proof. reflexivity. Qed.

(** ** Strings *)

Lemma str_eqb_eq (a b : str) : str_eqb a b = true <-> a = b.
Proof.
  revert b; induction a as [|x a IH]; intros [|y b]; simpl; split;
    try congruence; try discriminate.
  - intros H. apply andb_true_iff in H as [Hx Hy].
    apply N.eqb_eq in Hx. apply IH in Hy. congruence.
  - intros H. injection H as -> ->. rewrite N.eqb_refl. simpl. now apply IH.
Qed.

Lemma str_eqb_refl (a : str) : str_eqb a a = true.
Proof. now apply str_eqb_eq. Qed.

Lemma str_eqb_nil (a : str) : str_eqb a [] = true <-> a = [].
Proof. apply str_eqb_eq. Qed.

(** ** Loops over arrays *)

Lemma for_loop_from {A St : Type} (f : A -> St -> outcome St)
    (body : nat -> St -> outcome St) (done todo : list A) (st : St) :
  (forall i v st', nth_error (done ++ todo) i = Some v -> body i st' = f v st') ->
  for_loop (length todo) (length done) body st = foldM f todo st.
Proof.
  revert done st. induction todo as [|v todo IH]; intros done st Hbody.
  - reflexivity.
  - simpl. rewrite (Hbody (length done) v st).
    + destruct (f v st) as [st'|e]; simpl; [|reflexivity].
      specialize (IH (done ++ [v]) st').
      rewrite length_app in IH. simpl in IH. rewrite Nat.add_1_r in IH.
      apply IH. intros i w st'' Hi. apply Hbody.
      now rewrite <- app_assoc in Hi.
    + rewrite nth_error_app2 by lia. now rewrite Nat.sub_diag.
Qed.

Lemma for_loop_foldM {A St : Type} (f : A -> St -> outcome St)
    (body : nat -> St -> outcome St) (a : list A) (st : St) :
  (forall i v st', nth_error a i = Some v -> body i st' = f v st') ->
  for_loop (length a) 0 body st = foldM f a st.
Proof. intros H. now apply (for_loop_from f body [] a). Qed.

(** ** [mergeLayoutAndVisualizations] *)

Section MergeFacts.
Variable VizRest LayoutRest : Type.
Local Abbreviation Viz := (VisualizationType VizRest).
Local Abbreviation Lay := (Layout LayoutRest).

Lemma inner_loop (v : Viz) (layout : list Lay) (acc : list Viz) :
  foldM (push_match v) layout acc =
  Ret (acc ++ map (with_layout v)
                  (filter (fun l => str_eqb (viz_id v) (lay_i l)) layout)).
Proof.
  revert acc. induction layout as [|l layout IH]; intros acc; simpl.
  - now rewrite app_nil_r.
  - unfold push_match at 1. destruct (str_eqb (viz_id v) (lay_i l)); simpl.
    + rewrite IH. now rewrite <- app_assoc.
    + apply IH.
Qed.

Lemma outer_loop (layout : list Lay) (vs : list Viz) (acc : list Viz) :
  foldM (fun v acc' => foldM (push_match v) layout acc') vs acc =
  Ret (acc ++ matching_pairs layout vs).
Proof.
  revert acc. induction vs as [|v vs IH]; intros acc; simpl.
  - now rewrite app_nil_r.
  - rewrite inner_loop. simpl. rewrite IH. now rewrite <- app_assoc.
Qed.

Lemma merge_is_matching_pairs (layout : list Lay) (vs : list Viz) :
  mergeLayoutAndVisualizations layout vs = Ret (matching_pairs layout vs).
Proof.
  unfold mergeLayoutAndVisualizations.
  rewrite (for_loop_foldM (fun v acc' => foldM (push_match v) layout acc')).
  - apply outer_loop.
  - intros i v acc Hi.
    apply for_loop_foldM. intros j l acc' Hj.
    unfold element. rewrite Hi, Hj. reflexivity.
Qed.

(** C10. [mergeLayoutAndVisualizations] hands [setPanelVisualizations]
    one entry per pair of a visualization and a layout item with the
    same id, visualizations in list order (a visualization with
    several matching layout items once per item, one with none not
    at all); an entry takes [x], [y], [w] and [h] from the layout
    item and every other field from the visualization. *)
Theorem C10_merge_layout (layout : list Lay) (vs : list Viz) :
  let out :=
    flat_map (fun v =>
      map (fun l => {| viz_id := viz_id v;
                       viz_x := lay_x l; viz_y := lay_y l;
                       viz_w := lay_w l; viz_h := lay_h l;
                       viz_rest := viz_rest v |})
          (filter (fun l => str_eqb (viz_id v) (lay_i l)) layout)) vs in
  mergeLayoutAndVisualizations layout vs = Ret out
  /\ (forall e, In e out <->
         exists v l, In v vs /\ In l layout /\ viz_id v = lay_i l
                     /\ viz_id e = viz_id v /\ viz_rest e = viz_rest v
                     /\ viz_x e = lay_x l /\ viz_y e = lay_y l
                     /\ viz_w e = lay_w l /\ viz_h e = lay_h l)
  /\ length out =
      list_sum (map (fun v =>
        length (filter (fun l => str_eqb (viz_id v) (lay_i l)) layout)) vs).
Proof.
  intros out. split; [apply merge_is_matching_pairs|]. split.
  - intros e. unfold out. rewrite in_flat_map. split.
    + intros (v & Hv & He). apply in_map_iff in He as (l & <- & Hl).
      apply filter_In in Hl as [Hl Hid]. apply str_eqb_eq in Hid.
      exists v, l. simpl. repeat split; assumption.
    + intros (v & l & Hv & Hl & Hid & E1 & E2 & E3 & E4 & E5 & E6).
      exists v. split; [assumption|].
      apply in_map_iff. exists l. split.
      * destruct e; simpl in *. congruence.
      * apply filter_In. split; [assumption|]. now apply str_eqb_eq.
  - unfold out. clear out. induction vs as [|v vs' IH]; simpl.
    + reflexivity.
    + rewrite length_app, length_map. now rewrite IH.
Qed.

End MergeFacts.

(** ** The matcher only moves forward

    Whatever a matcher hands to its continuation lies further to the
    right in the same input, and the text in between is in the language
    of the term. *)
Module MatcherFacts.

Lemma advanced_nil x : advanced [] x x.
Proof. now split. Qed.

Lemma advanced_app u v x y z :
  advanced u x y -> advanced v y z -> advanced (u ++ v) x z.
Proof.
  intros [B1 R1] [B2 R2]. split.
  - rewrite B2, B1, rev_app_distr, <- app_assoc. reflexivity.
  - rewrite R1, R2, <- app_assoc. reflexivity.
Qed.

Lemma advanced_pos w x y : advanced w x y -> pos y = pos x + length w.
Proof.
  intros [B R]. unfold pos. rewrite B, length_app, length_rev. lia.
Qed.

Lemma repeat_matcher_sound m inner greedy a :
  steps (matches a) m ->
  forall fuel min max,
    steps (matches (Quant min max greedy a))
          (repeat_matcher fuel m inner min max greedy).
Proof.
  intros Hm. induction fuel as [|fuel IH]; intros min max x k z H.
  - discriminate.
  - simpl in H.
    assert (Hstop : k x = Some z ->
              exists w y, matches (Quant min max greedy a) w
                          /\ advanced w x y /\ k y = Some z).
    { intros Hk. exists [], x. split; [constructor|].
      split; [apply advanced_nil|assumption]. }
    assert (Hloop : forall k',
              (forall y, k' y = Some z ->
                 repeat_matcher fuel m inner (Nat.pred min)
                   (option_map Nat.pred max) greedy y k = Some z) ->
              m (reset_caps inner x) k' = Some z ->
              exists w y, matches (Quant min max greedy a) w
                          /\ advanced w x y /\ k y = Some z).
    { intros k' Hk' Hrun.
      apply Hm in Hrun as (u & y & Hu & Hxy & Hy).
      apply Hk' in Hy. apply IH in Hy as (v & y' & Hv & Hyy' & Hy').
      exists (u ++ v), y'. split; [eapply M_quant_iter; eassumption|].
      split; [|assumption].
      destruct Hxy as [B R], Hyy' as [B' R']. simpl in B, R. split.
      - rewrite B', B, rev_app_distr, <- app_assoc. reflexivity.
      - rewrite R, R', <- app_assoc. reflexivity. }
    assert (Hd : forall y,
      (if Nat.eqb min 0 && Nat.eqb (pos y) (pos x) then None
       else repeat_matcher fuel m inner (Nat.pred min) (option_map Nat.pred max)
              greedy y k) = Some z ->
      repeat_matcher fuel m inner (Nat.pred min) (option_map Nat.pred max)
        greedy y k = Some z).
    { intros y. destruct (Nat.eqb min 0 && Nat.eqb (pos y) (pos x)); congruence. }
    destruct max as [[|max']|].
    + auto.
    + destruct (negb (Nat.eqb min 0)); [exact (Hloop _ Hd H)|].
      destruct greedy.
      * destruct (m (reset_caps inner x) _) eqn:E;
          [injection H as ->; exact (Hloop _ Hd E) | auto].
      * destruct (k x) eqn:E; [injection H as ->; auto | exact (Hloop _ Hd H)].
    + destruct (negb (Nat.eqb min 0)); [exact (Hloop _ Hd H)|].
      destruct greedy.
      * destruct (m (reset_caps inner x) _) eqn:E;
          [injection H as ->; exact (Hloop _ Hd E) | auto].
      * destruct (k x) eqn:E; [injection H as ->; auto | exact (Hloop _ Hd H)].
Qed.

Theorem matcher_sound r : steps (matches r) (matcher r).
Proof.
  induction r as [|cs|a IHa b IHb|a IHa b IHb|min max greedy a IHa|i a IHa| | | |];
    intros x k z H; simpl in H.
  - exists [], x. split; [constructor|]. split; [apply advanced_nil|assumption].
  - destruct (rest x) as [|c t] eqn:R; [discriminate|].
    destruct (cset_mem cs c) eqn:M; [|discriminate].
    exists [c]. eexists. split; [now apply M_chr|]. split; [|eassumption].
    split; simpl; auto.
  - apply IHa in H as (u & y & Hu & Hxy & H).
    apply IHb in H as (v & y' & Hv & Hyy' & H).
    exists (u ++ v), y'. split; [now constructor|].
    split; [eapply advanced_app; eassumption|assumption].
  - destruct (matcher a x k) eqn:E.
    + injection H as ->. apply IHa in E as (u & y & Hu & Hxy & E).
      exists u, y. split; [now apply M_alt_l|]. now split.
    + apply IHb in H as (u & y & Hu & Hxy & E').
      exists u, y. split; [now apply M_alt_r|]. now split.
  - eapply repeat_matcher_sound; eassumption.
  - apply IHa in H as (u & y & Hu & [B R] & H).
    exists u. eexists. split; [now apply M_group|]. split; [|eassumption].
    split; simpl; auto.
  - destruct (before x); [|discriminate].
    exists [], x. split; [constructor|]. split; [apply advanced_nil|assumption].
  - destruct (rest x); [|discriminate].
    exists [], x. split; [constructor|]. split; [apply advanced_nil|assumption].
  - destruct (at_word_boundary x); [|discriminate].
    exists [], x. split; [constructor|]. split; [apply advanced_nil|assumption].
  - destruct (at_word_boundary x); [discriminate|].
    exists [], x. split; [constructor|]. split; [apply advanced_nil|assumption].
Qed.

(** A match cuts the input in three: what precedes it, the matched
    text, and what follows. *)
Lemma search_split r bef rst mr :
  search r bef rst = Some mr ->
  exists skipped w post,
    rst = skipped ++ w ++ post
    /\ matches r w
    /\ m_index mr = length bef + length skipped
    /\ m_end mr = m_index mr + length w.
Proof.
  revert bef. induction rst as [|c rst IH]; intros bef H; simpl in H.
  - destruct (matcher r (MState bef [] []) Some) as [y|] eqn:E; [|discriminate].
    injection H as <-.
    apply matcher_sound in E as (w & y' & Hw & Hadv & Hy).
    injection Hy as ->. pose proof (advanced_pos Hadv) as Hp.
    destruct Hadv as [B R]. simpl in *.
    exists [], w, (rest y). simpl. repeat split; auto; unfold pos in *; simpl in *; lia.
  - destruct (matcher r (MState bef (c :: rst) []) Some) as [y|] eqn:E.
    + injection H as <-.
      apply matcher_sound in E as (w & y' & Hw & Hadv & Hy).
      injection Hy as ->. pose proof (advanced_pos Hadv) as Hp.
      destruct Hadv as [B R]. simpl in *.
      exists [], w, (rest y). simpl.
      repeat split; auto; unfold pos in *; simpl in *; lia.
    + apply IH in H as (skipped & w & post & -> & Hw & Hi & He).
      exists (c :: skipped), w, post. simpl in *. repeat split; auto. lia.
Qed.

Lemma exec_split r s mr :
  exec r s = Some mr ->
  exists pre w post,
    s = pre ++ w ++ post
    /\ matches r w
    /\ m_index mr = length pre /\ m_end mr = length pre + length w
    /\ firstn (m_index mr) s = pre
    /\ matched s mr = w
    /\ skipn (m_end mr) s = post.
Proof.
  intros H. apply search_split in H as (pre & w & post & -> & Hm & Hi & He).
  simpl in Hi. exists pre, w, post. rewrite He, Hi.
  repeat split; auto.
  - now rewrite firstn_app, firstn_all, Nat.sub_diag, app_nil_r.
  - unfold matched, substring. rewrite He, Hi.
    rewrite skipn_app, skipn_all, Nat.sub_diag. simpl.
    replace (length pre + length w - length pre) with (length w) by lia.
    now rewrite firstn_app, firstn_all, Nat.sub_diag, app_nil_r.
  - rewrite app_assoc, skipn_app, length_app.
    rewrite skipn_all2 by (rewrite length_app; lia).
    now rewrite Nat.sub_diag.
Qed.

(** *** Locality and fuel *)

Lemma agree_from_advanced w x y k1 k2 :
  advanced w x y -> agree_from x k1 k2 -> agree_from y k1 k2.
Proof.
  intros Hxy H w' y' Hy. apply (H (w ++ w') y'). eapply advanced_app; eassumption.
Qed.

Lemma agree_from_reset inner x k1 k2 :
  agree_from x k1 k2 -> agree_from (reset_caps inner x) k1 k2.
Proof. intros H w y [B R]. apply (H w y). now split. Qed.

Lemma repeat_matcher_local m inner greedy :
  local m -> forall fuel min max, local (repeat_matcher fuel m inner min max greedy).
Proof.
  intros Hm. induction fuel as [|fuel IH]; intros min max x k1 k2 Hk.
  - reflexivity.
  - simpl. rewrite (Hk [] x (advanced_nil x)).
    assert (Hd : m (reset_caps inner x)
               (fun y => if Nat.eqb min 0 && Nat.eqb (pos y) (pos x) then None
                         else repeat_matcher fuel m inner (Nat.pred min)
                                (option_map Nat.pred max) greedy y k1)
             = m (reset_caps inner x)
               (fun y => if Nat.eqb min 0 && Nat.eqb (pos y) (pos x) then None
                         else repeat_matcher fuel m inner (Nat.pred min)
                                (option_map Nat.pred max) greedy y k2)).
    { apply Hm. intros w y Hy.
      destruct (Nat.eqb min 0 && Nat.eqb (pos y) (pos x)); [reflexivity|].
      apply IH. eapply agree_from_advanced; [exact Hy|].
      now apply agree_from_reset. }
    rewrite Hd. reflexivity.
Qed.

Lemma matcher_local r : local (matcher r).
Proof.
  induction r as [|cs|a IHa b IHb|a IHa b IHb|min max greedy a IHa|i a IHa| | | |];
    intros x k1 k2 Hk; simpl.
  - apply (Hk [] x (advanced_nil x)).
  - destruct (rest x) as [|c t] eqn:R; [reflexivity|].
    destruct (cset_mem cs c); [|reflexivity].
    apply (Hk [c]). split; simpl; auto.
  - apply IHa. intros w y Hy. apply IHb.
    eapply agree_from_advanced; eassumption.
  - rewrite (IHa x k1 k2 Hk), (IHb x k1 k2 Hk). reflexivity.
  - apply repeat_matcher_local; assumption.
  - apply IHa. intros w y [B R]. apply (Hk w). split; simpl; auto.
  - destruct (before x); [|reflexivity]. apply (Hk [] x (advanced_nil x)).
  - destruct (rest x); [|reflexivity]. apply (Hk [] x (advanced_nil x)).
  - destruct (at_word_boundary x); [|reflexivity]. apply (Hk [] x (advanced_nil x)).
  - destruct (at_word_boundary x); [reflexivity|]. apply (Hk [] x (advanced_nil x)).
Qed.

(** Fuel beyond [min + length rest] changes nothing: the iteration
    never stops for lack of fuel. *)
Lemma repeat_matcher_fuel m inner greedy :
  local m ->
  forall fuel1 fuel2 min max x k,
    min + length (rest x) < fuel1 ->
    min + length (rest x) < fuel2 ->
    repeat_matcher fuel1 m inner min max greedy x k
    = repeat_matcher fuel2 m inner min max greedy x k.
Proof.
  intros Hm. induction fuel1 as [|fuel1 IH]; intros fuel2 min max x k H1 H2.
  - lia.
  - destruct fuel2 as [|fuel2]; [lia|]. simpl.
    assert (Hd : m (reset_caps inner x)
               (fun y => if Nat.eqb min 0 && Nat.eqb (pos y) (pos x) then None
                         else repeat_matcher fuel1 m inner (Nat.pred min)
                                (option_map Nat.pred max) greedy y k)
             = m (reset_caps inner x)
               (fun y => if Nat.eqb min 0 && Nat.eqb (pos y) (pos x) then None
                         else repeat_matcher fuel2 m inner (Nat.pred min)
                                (option_map Nat.pred max) greedy y k)).
    { apply Hm. intros w y Hy.
      assert (Hxy : advanced w x y) by (destruct Hy as [B R]; now split).
      pose proof (advanced_pos Hxy) as Hp.
      assert (Hlen : length (rest x) = length w + length (rest y)).
      { destruct Hxy as [_ R]. rewrite R, length_app. reflexivity. }
      destruct (Nat.eqb min 0) eqn:Emin; simpl.
      - destruct (Nat.eqb (pos y) (pos x)) eqn:Epos; [reflexivity|].
        apply Nat.eqb_eq in Emin. apply Nat.eqb_neq in Epos. subst min.
        apply IH; simpl; lia.
      - apply Nat.eqb_neq in Emin. apply IH; lia. }
    rewrite Hd. reflexivity.
Qed.

Theorem quantifier_fuel_enough min max greedy a x k fuel :
  min + length (rest x) < fuel ->
  matcher (Quant min max greedy a) x k
  = repeat_matcher fuel (matcher a) (groups a) min max greedy x k.
Proof.
  intros H. simpl. apply repeat_matcher_fuel; [apply matcher_local| lia | exact H].
Qed.

End MatcherFacts.

(** ** [updateQuerySpanInterval]

    For a field name of ordinary characters the pattern is
    [span_regex]; it matches exactly at the span directives of the
    field, and the first directive from the left is the one replaced. *)
Module SpanFacts.
Import MatcherFacts.

Lemma run_app st a b :
  run st (a ++ b) =
  match run st a with
  | inl st' => run st' b
  | inr e => inr e
  end.
Proof.
  revert st. induction a as [|c a IH]; intros st; simpl.
  - reflexivity.
  - destruct (step st c); [apply IH|reflexivity].
Qed.

Lemma run_plain tf : 
  plain_field tf ->
  forall alts sq grp stack last n,
  run (PState (Frame alts sq grp) stack last MNormal n) tf
  = inl (PState (Frame alts (rev (lits tf) ++ sq) grp) stack
                (match tf with [] => last | _ => LAtom end) MNormal n).
Proof.
  unfold plain_field.
  induction tf as [|c tf IH]; intros Hp alts sq grp stack last n.
  - reflexivity.
  - simpl in Hp. apply andb_true_iff in Hp as [Hc Hp].
    unfold plain_char in Hc. apply andb_true_iff in Hc as [Hc _].
    apply negb_true_iff in Hc.
    simpl run. unfold step. simpl ps_mode. unfold step_normal. rewrite Hc.
    unfold push_atom, push_term. simpl.
    rewrite (IH Hp). rewrite <- app_assoc. simpl.
    destruct tf; reflexivity.
Qed.

Lemma span_pattern_compiles tf :
  plain_field tf -> RegExp_new (span_pattern tf) = Compiled (span_regex tf).
Proof.
  intros Hp. unfold RegExp_new, span_pattern.
  rewrite (run_app pinit (lit "span\(\s*") (tf ++ lit "\s*,(.*?)\)")).
  change (run pinit (lit "span\(\s*")) with
    (inl (B := perr) (PState (Frame [] (rev (lits (lit "span(") ++ [ws_star])) None)
                 [] LQuant MNormal 0)).
  cbv beta iota.
  rewrite (run_app _ tf (lit "\s*,(.*?)\)")), (run_plain Hp).
  unfold span_regex.
  set (sq := rev (lits tf) ++ _).
  assert (E : forall last,
    run (PState (Frame [] sq None) [] last MNormal 0) (lit "\s*,(.*?)\)")
    = inl (PState (Frame [] (Chr (CsChar (ch ")"))
                              :: Group 1 (Seq (Quant 0 None false (Chr CsDot)) Empty)
                              :: Chr (CsChar (ch ",")) :: ws_star :: sq) None)
                  [] LAtom MNormal 1)).
  { intros last. reflexivity. }
  cbv beta iota. rewrite E. unfold finish. simpl ps_mode. simpl ps_stack. cbv beta iota.
  unfold frame_regex. simpl fr_seq. simpl fr_alts.
  unfold sq. simpl rev.
  rewrite !rev_app_distr, rev_involutive. simpl.
  rewrite <- !app_assoc. reflexivity.
Qed.

(** *** What the span pattern can consume *)

Lemma matches_chr_inv cs w :
  matches (Chr cs) w -> exists c, w = [c] /\ cset_mem cs c = true.
Proof. intros H. inversion H; subst. eauto. Qed.

Lemma matches_seq_inv a b w :
  matches (Seq a b) w -> exists u v, w = u ++ v /\ matches a u /\ matches b v.
Proof. intros H. inversion H; subst. eauto. Qed.

Lemma matches_empty_inv w : matches Empty w -> w = [].
Proof. intros H. now inversion H. Qed.

Lemma matches_lits cs ts w :
  matches (seq_of (lits cs ++ ts)) w ->
  exists v, w = cs ++ v /\ matches (seq_of ts) v.
Proof.
  revert w. induction cs as [|c cs IH]; intros w H; simpl in H.
  - now exists w.
  - apply matches_seq_inv in H as (u & v & -> & Hu & Hv).
    apply matches_chr_inv in Hu as (c' & -> & Hc). simpl in Hc.
    apply N.eqb_eq in Hc. subst c'.
    apply IH in Hv as (v' & -> & Hv'). now exists v'.
Qed.

Lemma matches_star_chr r w :
  matches r w ->
  forall min max g cs, r = Quant min max g (Chr cs) ->
  forallb (cset_mem cs) w = true.
Proof.
  induction 1; intros mn mx gr cs0 E; try discriminate.
  - reflexivity.
  - injection E as -> -> -> ->.
    apply matches_chr_inv in H as (c & -> & Hc). simpl. rewrite Hc. simpl.
    eapply IHmatches2. reflexivity.
Qed.

Lemma span_regex_sound tf w :
  matches (span_regex tf) w -> directive tf w.
Proof.
  unfold span_regex. intros H.
  apply matches_lits in H as (v0 & -> & H). simpl seq_of in H.
  apply matches_seq_inv in H as (ws1 & v1 & -> & Hws1 & H).
  apply matches_lits in H as (v2 & -> & H). simpl seq_of in H.
  apply matches_seq_inv in H as (ws2 & v3 & -> & Hws2 & H).
  apply matches_seq_inv in H as (u & v4 & -> & Hcomma & H).
  apply matches_chr_inv in Hcomma as (c & -> & Hc). apply N.eqb_eq in Hc. subst c.
  apply matches_seq_inv in H as (g & v5 & -> & Hg & H).
  apply matches_seq_inv in H as (u & v6 & -> & Hparen & H).
  apply matches_chr_inv in Hparen as (c & -> & Hc). apply N.eqb_eq in Hc. subst c.
  apply matches_empty_inv in H. subst v6.
  inversion Hg as [| | | | | | |i a0 u Hbody| | | |]; subst.
  apply matches_seq_inv in Hbody as (old & e & -> & Hold & He).
  apply matches_empty_inv in He. subst e.
  exists ws1, ws2, old. split; [|split; [|split]].
  - unfold directive_text. rewrite !app_nil_r. reflexivity.
  - exact (matches_star_chr Hws1 (cs := CsSpace) eq_refl).
  - exact (matches_star_chr Hws2 (cs := CsSpace) eq_refl).
  - exact (matches_star_chr Hold (cs := CsDot) eq_refl).
Qed.

Lemma reset_caps_nil x : reset_caps [] x = x.
Proof.
  destruct x as [b r c]. unfold reset_caps. simpl. f_equal.
  induction c as [|e c IH]; simpl; [reflexivity|now rewrite IH].
Qed.

Lemma matcher_lits cs ts b r c k :
  matcher (seq_of (lits cs ++ ts)) (MState b (cs ++ r) c) k
  = matcher (seq_of ts) (MState (rev cs ++ b) r c) k.
Proof.
  revert b. induction cs as [|x cs IH]; intros b.
  - reflexivity.
  - simpl. rewrite N.eqb_refl. rewrite IH. now rewrite <- app_assoc.
Qed.

Lemma repeat_star_unfold fuel m inner greedy x k :
  repeat_matcher (S fuel) m inner 0 None greedy x k =
  let d := fun y : mstate =>
    if Nat.eqb (pos y) (pos x) then None
    else repeat_matcher fuel m inner 0 None greedy y k in
  if greedy then
    match m (reset_caps inner x) d with
    | Some z => Some z
    | None => k x
    end
  else
    match k x with
    | Some z => Some z
    | None => m (reset_caps inner x) d
    end.
Proof. reflexivity. Qed.

Lemma chr_cons cs b c0 r c k :
  matcher (Chr cs) (MState b (c0 :: r) c) k
  = if cset_mem cs c0 then k (MState (c0 :: b) r c) else None.
Proof. reflexivity. Qed.

Lemma chr_nil cs b c k : matcher (Chr cs) (MState b [] c) k = None.
Proof. reflexivity. Qed.

Lemma pos_cons_neq c0 b r c r' c' :
  Nat.eqb (pos (MState (c0 :: b) r c)) (pos (MState b r' c')) = false.
Proof. unfold pos. cbn [before length]. apply Nat.eqb_neq. lia. Qed.

(** A greedy star over a character set runs to the end of a run of
    members when the continuation succeeds there. *)
Lemma star_greedy cs ws :
  forallb (cset_mem cs) ws = true ->
  forall fuel b r c k z,
    (forall c' r', r = c' :: r' -> cset_mem cs c' = false) ->
    k (MState (rev ws ++ b) r c) = Some z ->
    repeat_matcher (length ws + S fuel) (matcher (Chr cs)) [] 0 None true
                   (MState b (ws ++ r) c) k = Some z.
Proof.
  induction ws as [|w ws IH]; intros Hws fuel b r c k z Hr Hk.
  - cbn [length Nat.add app]. rewrite repeat_star_unfold. cbv zeta.
    rewrite reset_caps_nil.
    destruct r as [|c' r'].
    + rewrite chr_nil. exact Hk.
    + rewrite chr_cons, (Hr c' r' eq_refl). exact Hk.
  - simpl in Hws. apply andb_true_iff in Hws as [Hw Hws].
    cbn [length Nat.add app]. rewrite repeat_star_unfold. cbv zeta.
    rewrite reset_caps_nil, chr_cons, Hw, pos_cons_neq.
    rewrite (IH Hws fuel (w :: b) r c k z Hr); [reflexivity|].
    simpl in Hk. now rewrite <- app_assoc in Hk.
Qed.

(** A lazy star stops at the first place where the continuation
    succeeds. *)
Lemma star_lazy cs old :
  forallb (cset_mem cs) old = true ->
  forall fuel b r c k z,
    (forall b' r' c' x, In x old -> k (MState b' (x :: r') c') = None) ->
    k (MState (rev old ++ b) r c) = Some z ->
    repeat_matcher (length old + S fuel) (matcher (Chr cs)) [] 0 None false
                   (MState b (old ++ r) c) k = Some z.
Proof.
  induction old as [|o old IH]; intros Hold fuel b r c k z Hfail Hk.
  - cbn [length Nat.add app]. rewrite repeat_star_unfold. cbv zeta.
    simpl in Hk. now rewrite Hk.
  - simpl in Hold. apply andb_true_iff in Hold as [Ho Hold].
    cbn [length Nat.add app]. rewrite repeat_star_unfold. cbv zeta.
    rewrite (Hfail b (old ++ r) c o (or_introl eq_refl)).
    rewrite reset_caps_nil, chr_cons, Ho, pos_cons_neq.
    apply IH; auto.
    + intros b' r' c' x Hx. apply Hfail. now right.
    + simpl in Hk. now rewrite <- app_assoc in Hk.
Qed.

Lemma quant_star_unfold greedy cs x k :
  matcher (Quant 0 None greedy (Chr cs)) x k
  = repeat_matcher (length (rest x) + 1) (matcher (Chr cs)) [] 0 None greedy x k.
Proof. reflexivity. Qed.

Lemma seq_of_cons t ts x k :
  matcher (seq_of (t :: ts)) x k = matcher t x (fun y => matcher (seq_of ts) y k).
Proof. reflexivity. Qed.

(** The part of the pattern after the field name. *)
Lemma span_tail_match ws2 old post b :
  forallb is_whitespace ws2 = true ->
  no_line_terminator old = true ->
  no_close_paren old = true ->
  exists c',
    matcher (seq_of span_tail)
            (MState b (ws2 ++ lit "," ++ old ++ lit ")" ++ post) []) Some
    = Some (MState (rev (ws2 ++ lit "," ++ old ++ lit ")") ++ b) post c').
Proof.
  intros Hws Hlt Hcp. unfold span_tail, ws_star.
  eexists.
  rewrite seq_of_cons, quant_star_unfold. cbn [rest].
  rewrite length_app.
  replace (length ws2 + length (lit "," ++ old ++ lit ")" ++ post) + 1)
    with (length ws2 + S (length (lit "," ++ old ++ lit ")" ++ post)))
    by lia.
  apply star_greedy.
  - exact Hws.
  - intros c' r' E. injection E as <- _. reflexivity.
  - rewrite seq_of_cons.
    change (lit "," ++ old ++ lit ")" ++ post) with (ch "," :: old ++ lit ")" ++ post).
    rewrite chr_cons.
    change (cset_mem (CsChar (ch ",")) (ch ",")) with true. cbv iota.
    rewrite seq_of_cons.
    change (matcher (Group 1 (Seq (Quant 0 None false (Chr CsDot)) Empty)) ?x ?k)
      with (matcher (Quant 0 None false (Chr CsDot)) x
              (fun y => k (set_cap 1 (pos x, pos y) y))).
    rewrite quant_star_unfold. cbn [rest].
    rewrite length_app.
    replace (length old + length (lit ")" ++ post) + 1)
      with (length old + S (length (lit ")" ++ post))) by lia.
    apply star_lazy.
    + exact Hlt.
    + intros b' r' c' x Hx.
      unfold no_close_paren in Hcp. rewrite forallb_forall in Hcp.
      specialize (Hcp x Hx). apply negb_true_iff in Hcp.
      simpl in Hcp. simpl. rewrite Hcp. reflexivity.
    + simpl.
      rewrite !rev_app_distr. simpl. rewrite !rev_app_distr. simpl.
      rewrite <- !app_assoc. simpl.
      reflexivity.
Qed.

Lemma plain_char_not_space c : plain_char c = true -> is_whitespace c = false.
Proof.
  unfold plain_char. intros H. apply andb_true_iff in H as [_ H].
  now apply negb_true_iff in H.
Qed.

Lemma plain_char_not_dollar c : plain_char c = true -> negb (c =? ch "$")%N = true.
Proof.
  unfold plain_char. intros H. apply andb_true_iff in H as [H _].
  apply negb_true_iff in H. apply negb_true_iff.
  destruct (c =? ch "$")%N eqn:E; [|reflexivity].
  apply N.eqb_eq in E. subst c. discriminate H.
Qed.

(** The whole pattern at the start of a directive. *)
Lemma span_regex_match tf ws1 ws2 old post b :
  plain_field tf ->
  forallb is_whitespace ws1 = true ->
  forallb is_whitespace ws2 = true ->
  no_line_terminator old = true ->
  no_close_paren old = true ->
  exists z,
    matcher (span_regex tf)
            (MState b (directive_text tf ws1 ws2 old ++ post) []) Some = Some z
    /\ pos z = length b + length (directive_text tf ws1 ws2 old).
Proof.
  intros Hp H1 H2 Hlt Hcp. unfold span_regex, directive_text.
  rewrite <- !app_assoc. rewrite matcher_lits.
  rewrite seq_of_cons. unfold ws_star at 1.
  rewrite quant_star_unfold. cbn [rest].
  destruct tf as [|t0 tf'].
  - cbn [lits map app].
    destruct (@span_tail_match [] old post
                (rev (ws1 ++ ws2) ++ rev (lit "span(") ++ b)
                eq_refl Hlt Hcp) as [c' E].
    eexists. split.
    + rewrite (app_assoc ws1 ws2). rewrite length_app.
      replace (length (ws1 ++ ws2) + length (lit "," ++ old ++ lit ")" ++ post) + 1)
        with (length (ws1 ++ ws2) + S (length (lit "," ++ old ++ lit ")" ++ post)))
        by lia.
      apply star_greedy.
      * change (forallb is_whitespace (ws1 ++ ws2) = true).
        rewrite forallb_app, H1, H2. reflexivity.
      * intros c0 r' E0. injection E0 as <- _. reflexivity.
      * exact E.
    + unfold pos. cbn [before].
      rewrite ?length_app, ?length_rev, ?length_app. simpl. lia.
  - assert (Hp' := Hp). unfold plain_field in Hp'. simpl in Hp'.
    apply andb_true_iff in Hp' as [Ht0 _].
    destruct (@span_tail_match ws2 old post
                (rev (t0 :: tf') ++ rev ws1 ++ rev (lit "span(") ++ b)
                H2 Hlt Hcp) as [c' E].
    eexists. split.
    + rewrite length_app.
      match goal with
      | |- context [length ws1 + length ?r + 1] =>
        replace (length ws1 + length r + 1) with (length ws1 + S (length r)) by lia
      end.
      apply star_greedy.
      * exact H1.
      * intros c0 r' E0. injection E0 as <- _. now apply plain_char_not_space.
      * rewrite matcher_lits. exact E.
    + unfold pos. cbn [before].
      rewrite ?length_app, ?length_rev, ?length_app. simpl.
      rewrite ?length_app. simpl. lia.
Qed.

(** Positions at which the pattern fails are passed over. *)
Lemma search_first r pre :
  forall rst bef,
    (forall i, i < length pre ->
       matcher r (MState (rev (firstn i pre) ++ bef) (skipn i pre ++ rst) []) Some
       = None) ->
    search r bef (pre ++ rst) = search r (rev pre ++ bef) rst.
Proof.
  induction pre as [|p pre IH]; intros rst bef H.
  - reflexivity.
  - cbn [app search].
    pose proof (H 0 (Nat.lt_0_succ _)) as H0. simpl in H0. rewrite H0.
    rewrite IH.
    + simpl. now rewrite <- app_assoc.
    + intros i Hi. specialize (H (S i) (proj1 (Nat.succ_lt_mono _ _) Hi)).
      simpl in H. now rewrite <- app_assoc in H.
Qed.

Lemma search_here r bef rst y :
  matcher r (MState bef rst []) Some = Some y ->
  search r bef rst = Some (MatchResult (length bef) (pos y) (caps y)).
Proof. intros H. destruct rst; simpl; now rewrite H. Qed.

Lemma span_regex_fails tf q i bef :
  i <= length q ->
  (forall p d r, q = p ++ d ++ r -> directive tf d -> length p <> i) ->
  matcher (span_regex tf) (MState bef (skipn i q) []) Some = None.
Proof.
  intros Hi Hno.
  destruct (matcher (span_regex tf) (MState bef (skipn i q) []) Some) as [z|] eqn:E;
    [|reflexivity].
  exfalso.
  apply matcher_sound in E as (w & y & Hw & [_ R] & _). simpl in R.
  apply span_regex_sound in Hw.
  apply (Hno (firstn i q) w (rest y)).
  - rewrite <- R. symmetry. apply firstn_skipn.
  - exact Hw.
  - rewrite length_firstn. lia.
Qed.

Lemma span_exec tf pre ws1 ws2 old post :
  plain_field tf ->
  forallb is_whitespace ws1 = true ->
  forallb is_whitespace ws2 = true ->
  no_line_terminator old = true ->
  no_close_paren old = true ->
  no_directive_before tf (pre ++ directive_text tf ws1 ws2 old ++ post) (length pre) ->
  exists mr,
    exec (span_regex tf) (pre ++ directive_text tf ws1 ws2 old ++ post) = Some mr
    /\ m_index mr = length pre
    /\ m_end mr = length pre + length (directive_text tf ws1 ws2 old).
Proof.
  intros Hp H1 H2 Hlt Hcp Hfirst.
  destruct (@span_regex_match tf ws1 ws2 old post (rev pre) Hp H1 H2 Hlt Hcp)
    as (z & Hz & Hpos).
  unfold exec. rewrite search_first.
  - rewrite app_nil_r. rewrite (@search_here _ _ _ _ Hz).
    eexists. split; [reflexivity|]. simpl. rewrite length_rev in *. auto.
  - intros i Hi. 
    set (q := pre ++ directive_text tf ws1 ws2 old ++ post) in *.
    assert (Hs : skipn i pre ++ directive_text tf ws1 ws2 old ++ post = skipn i q).
    { unfold q. rewrite skipn_app.
      replace (i - length pre) with 0 by lia. reflexivity. }
    rewrite Hs. apply span_regex_fails.
    + unfold q. rewrite length_app. lia.
    + intros p d r Hq Hd Hlen. specialize (Hfirst p d r Hq Hd). lia.
Qed.

Lemma span_exec_none tf q :
  ~ has_directive tf q -> exec (span_regex tf) q = None.
Proof.
  intros Hno. destruct (exec (span_regex tf) q) as [mr|] eqn:E; [|reflexivity].
  exfalso. apply Hno.
  apply exec_split in E as (pre & w & post & -> & Hw & _).
  exists pre, w, post. split; [reflexivity|]. now apply span_regex_sound.
Qed.

Lemma get_substitution_plain s mr m tpl :
  no_dollar tpl = true -> get_substitution s mr m tpl = tpl.
Proof.
  unfold no_dollar. induction tpl as [|c t IH]; intros H.
  - reflexivity.
  - simpl in H. apply andb_true_iff in H as [Hc Ht].
    simpl. simpl in Hc. rewrite Hc. now rewrite IH.
Qed.

Lemma span_replacement_plain tf sp :
  plain_field tf -> no_dollar sp = true ->
  no_dollar (span_replacement tf sp) = true.
Proof.
  intros Hp Hs. unfold span_replacement, no_dollar in *.
  assert (Ht : forallb (fun c => negb (c =? ch "$")%N) tf = true).
  { apply forallb_forall. intros c Hc. apply plain_char_not_dollar.
    unfold plain_field in Hp. rewrite forallb_forall in Hp. now apply Hp. }
  rewrite !forallb_app, Ht, Hs. reflexivity.
Qed.

(** The leftmost directive is replaced as a whole; the text before
    and after it is kept. *)
Lemma update_leftmost_directive tf sp pre ws1 ws2 old post :
  plain_field tf ->
  forallb is_whitespace ws1 = true ->
  forallb is_whitespace ws2 = true ->
  no_line_terminator old = true ->
  no_close_paren old = true ->
  no_directive_before tf (pre ++ directive_text tf ws1 ws2 old ++ post) (length pre) ->
  exists new,
    updateQuerySpanInterval (pre ++ directive_text tf ws1 ws2 old ++ post) tf sp
    = Some (Ret (pre ++ new ++ post))
    /\ (no_dollar sp = true -> new = lit "span(" ++ tf ++ lit "," ++ sp ++ lit ")").
Proof.
  intros Hp H1 H2 Hlt Hcp Hfirst.
  destruct (@span_exec tf pre ws1 ws2 old post Hp H1 H2 Hlt Hcp Hfirst)
    as (mr & Hex & Hi & He).
  unfold updateQuerySpanInterval. rewrite (@span_pattern_compiles tf Hp).
  unfold replace. rewrite Hex.
  eexists. split.
  - rewrite Hi, He.
    rewrite firstn_app, firstn_all, Nat.sub_diag. simpl firstn.
    rewrite app_nil_r.
    rewrite skipn_app.
    rewrite (skipn_all2 pre) by lia.
    replace (length pre + length (directive_text tf ws1 ws2 old) - length pre)
      with (length (directive_text tf ws1 ws2 old)) by lia.
    rewrite skipn_app, skipn_all, Nat.sub_diag.
    change (skipn 0 post) with post. change ([] ++ post) with post.
    reflexivity.
  - intros Hs. apply get_substitution_plain. now apply span_replacement_plain.
Qed.

Lemma update_without_directive tf sp q :
  plain_field tf -> ~ has_directive tf q ->
  updateQuerySpanInterval q tf sp = Some (Ret q).
Proof.
  intros Hp Hno. unfold updateQuerySpanInterval.
  rewrite (@span_pattern_compiles tf Hp). unfold replace.
  now rewrite (@span_exec_none tf q Hno).
Qed.

(** The interval of a directive ends at the first closing parenthesis. *)
Lemma first_close_paren old post :
  no_line_terminator old = true ->
  exists old1 rest1,
    old ++ lit ")" ++ post = old1 ++ lit ")" ++ rest1
    /\ no_close_paren old1 = true
    /\ no_line_terminator old1 = true.
Proof.
  induction old as [|o old IH]; intros Hlt.
  - now exists [], post.
  - simpl in Hlt. apply andb_true_iff in Hlt as [Ho Hlt].
    destruct (o =? ch ")")%N eqn:E.
    + apply N.eqb_eq in E. subst o.
      exists [], (old ++ lit ")" ++ post). auto.
    + destruct (IH Hlt) as (old1 & rest1 & E1 & Hcp & Hlt1).
      exists (o :: old1), rest1. repeat split.
      * rewrite <- !app_comm_cons. f_equal. exact E1.
      * simpl. simpl in E. now rewrite E, Hcp.
      * simpl. now rewrite Ho, Hlt1.
Qed.

Lemma directive_matches_at tf d :
  plain_field tf -> directive tf d ->
  forall b r, exists z,
    matcher (span_regex tf) (MState b (d ++ r) []) Some = Some z.
Proof.
  intros Hp (ws1 & ws2 & old & -> & H1 & H2 & Hlt) b r.
  destruct (@first_close_paren old r Hlt) as (old1 & rest1 & E & Hcp & Hlt1).
  destruct (@span_regex_match tf ws1 ws2 old1 rest1 b Hp H1 H2 Hlt1 Hcp)
    as (z & Hz & _).
  exists z. rewrite <- Hz. f_equal. f_equal.
  unfold directive_text. rewrite <- !app_assoc. now rewrite E.
Qed.

Lemma search_none_before r rst :
  forall bef mr pre' rst',
    search r bef rst = Some mr ->
    rst = pre' ++ rst' ->
    length bef + length pre' < m_index mr ->
    matcher r (MState (rev pre' ++ bef) rst' []) Some = None.
Proof.
  induction rst as [|c rst IH]; intros bef mr pre' rst' Hs Hsplit Hlt.
  - symmetry in Hsplit. apply app_eq_nil in Hsplit as [-> ->].
    simpl in *.
    destruct (matcher r (MState bef [] []) Some) eqn:E; [|reflexivity].
    injection Hs as <-. simpl in Hlt. lia.
  - simpl in Hs.
    destruct (matcher r (MState bef (c :: rst) []) Some) eqn:E.
    + injection Hs as <-. simpl in Hlt. lia.
    + destruct pre' as [|p pre''].
      * simpl in Hsplit. subst rst'. exact E.
      * simpl in Hsplit. injection Hsplit as <- Hsplit.
        simpl. rewrite <- app_assoc. simpl.
        apply (IH (c :: bef) mr pre'' rst' Hs Hsplit).
        simpl in *. lia.
Qed.

Lemma search_some r pre :
  forall bef rst y,
    matcher r (MState (rev pre ++ bef) rst []) Some = Some y ->
    exists mr, search r bef (pre ++ rst) = Some mr.
Proof.
  induction pre as [|p pre IH]; intros bef rst y H.
  - simpl in H. cbn [app]. rewrite (@search_here _ _ _ _ H). eauto.
  - cbn [app search].
    destruct (matcher r (MState bef (p :: pre ++ rst) []) Some); [eauto|].
    apply (IH (p :: bef) rst y). simpl in H. now rewrite <- app_assoc in H.
Qed.

(** The index at which the pattern matches is where the leftmost
    directive starts. *)
Lemma leftmost_by_exec tf q mr :
  plain_field tf ->
  exec (span_regex tf) q = Some mr ->
  no_directive_before tf q (m_index mr).
Proof.
  intros Hp Hex p d r Hq Hd.
  destruct (Nat.le_gt_cases (m_index mr) (length p)) as [|Hlt]; [assumption|].
  exfalso.
  destruct (@directive_matches_at tf d Hp Hd (rev p) r) as [z Hz].
  pose proof (@search_none_before (span_regex tf) q [] mr p (d ++ r) Hex Hq Hlt) as Hn.
  rewrite app_nil_r in Hn. congruence.
Qed.

Lemma no_directive_by_exec tf q :
  plain_field tf ->
  exec (span_regex tf) q = None ->
  ~ has_directive tf q.
Proof.
  intros Hp Hex (p & d & r & -> & Hd).
  destruct (@directive_matches_at tf d Hp Hd (rev p ++ []) r) as [z Hz].
  destruct (@search_some _ _ _ _ _ Hz) as [mr Hmr].
  unfold exec in Hex. congruence.
Qed.

End SpanFacts.

Section SpanClaims.
Import SpanFacts.

Lemma leftmost_by_index tf q n :
  plain_field tf ->
  option_map m_index (exec (span_regex tf) q) = Some n ->
  no_directive_before tf q n.
Proof.
  intros Hp H. destruct (exec (span_regex tf) q) as [mr|] eqn:E; [|discriminate].
  injection H as <-. now apply leftmost_by_exec.
Qed.

(** Whatever the field, a query in which the pattern does not match
    comes back as it is. *)
Lemma update_no_match tf q sp r :
  RegExp_new (span_pattern tf) = Compiled r ->
  exec r q = None ->
  updateQuerySpanInterval q tf sp = Some (Ret q).
Proof.
  intros Hc He. unfold updateQuerySpanInterval, replace. now rewrite Hc, He.
Qed.

(** Whatever the field, only the text of the first match changes. *)
Lemma update_first_match tf q sp r mr :
  RegExp_new (span_pattern tf) = Compiled r ->
  exec r q = Some mr ->
  exists pre w post new,
    q = pre ++ w ++ post
    /\ length pre = m_index mr
    /\ w = matched q mr
    /\ updateQuerySpanInterval q tf sp = Some (Ret (pre ++ new ++ post)).
Proof.
  intros Hc He.
  destruct (MatcherFacts.exec_split _ _ He)
    as (pre & w & post & Hq & _ & Hi & _ & Hpre & Hw & Hpost).
  exists pre, w, post. eexists. repeat split; auto.
  unfold updateQuerySpanInterval, replace. rewrite Hc, He, Hpre, Hpost.
  reflexivity.
Qed.

(** C4, as amended.  When the leftmost span directive of the field
    reads [span(], whitespace, the field, whitespace, [,], the old
    interval, [)], the whole directive is replaced by
    [span(<field>,<spanParam>)]: the old interval gives way to
    [spanParam], the whitespace around the field name is dropped, and
    the text before and after the directive is kept.  The field is made
    of characters that are neither pattern syntax nor whitespace and
    [spanParam] has no [$].  In particular the query
    [source=a | stats avg(x) by span(timestamp,1d)] becomes
    [source=a | stats avg(x) by span(timestamp,1M)]. *)
Theorem C4_span_update (tf sp pre ws1 ws2 old post : str) :
  plain_field tf ->
  no_dollar sp = true ->
  forallb is_whitespace ws1 = true ->
  forallb is_whitespace ws2 = true ->
  no_line_terminator old = true ->
  no_close_paren old = true ->
  no_directive_before tf (pre ++ directive_text tf ws1 ws2 old ++ post)
                      (length pre) ->
  updateQuerySpanInterval (pre ++ directive_text tf ws1 ws2 old ++ post) tf sp
    = Some (Ret (pre ++ (lit "span(" ++ tf ++ lit "," ++ sp ++ lit ")") ++ post))
  /\ updateQuerySpanInterval
       (lit "source=a | stats avg(x) by span(timestamp,1d)")
       (lit "timestamp") (lit "1M")
     = Some (Ret (lit "source=a | stats avg(x) by span(timestamp,1M)")).
Proof.
  intros Hp Hsp H1 H2 Hlt Hcp Hfirst. split; [|reflexivity].
  destruct (@update_leftmost_directive tf sp pre ws1 ws2 old post
              Hp H1 H2 Hlt Hcp Hfirst) as (new & Hres & Hnew).
  rewrite Hres, (Hnew Hsp). reflexivity.
Qed.

(** C5, as amended.  For a field made of characters that are neither
    pattern syntax nor whitespace, a query that contains no span
    directive for the field comes back unmodified, and no error is
    raised; and so does, for any field, a query in which the pattern
    built from the field is well formed and matches nowhere. *)
Theorem C5_span_update_identity (tf query sp : str) :
  (forall r, RegExp_new (span_pattern tf) = Compiled r ->
             exec r query = None ->
             updateQuerySpanInterval query tf sp = Some (Ret query))
  /\ (plain_field tf ->
      ~ has_directive tf query ->
      updateQuerySpanInterval query tf sp = Some (Ret query)).
Proof.
  split.
  - intros r. apply update_no_match.
  - apply update_without_directive.
Qed.

(** C6, as amended.  For a field made of characters that are neither
    pattern syntax nor whitespace: when the query holds two or more
    span directives for the field, only the leftmost is rewritten (to
    [span(<field>,<spanParam>)] when [spanParam] has no [$]); the text
    before it and what follows it, later directives included, are
    returned as they were. *)
Theorem C6_first_occurrence_only (tf sp pre ws1 ws2 old mid later post : str) :
  plain_field tf ->
  forallb is_whitespace ws1 = true ->
  forallb is_whitespace ws2 = true ->
  no_line_terminator old = true ->
  no_close_paren old = true ->
  directive tf later ->
  no_directive_before tf
    (pre ++ directive_text tf ws1 ws2 old ++ mid ++ later ++ post) (length pre) ->
  exists new,
    updateQuerySpanInterval
      (pre ++ directive_text tf ws1 ws2 old ++ mid ++ later ++ post) tf sp
    = Some (Ret (pre ++ new ++ mid ++ later ++ post))
    /\ (no_dollar sp = true -> new = lit "span(" ++ tf ++ lit "," ++ sp ++ lit ")").
Proof.
  intros Hp H1 H2 Hlt Hcp _ Hfirst.
  exact (@update_leftmost_directive tf sp pre ws1 ws2 old (mid ++ later ++ post)
           Hp H1 H2 Hlt Hcp Hfirst).
Qed.

End SpanClaims.

(** The directive [span(timestamp , 1d)] is rewritten together with
    the blanks around its comma: the result is neither the query with
    [1d] replaced by [1M] nor the query with the captured [ 1d]
    replaced by [1M], in both of which the blank before the comma
    would remain. *)
Lemma C4_span_update_counterexample :
  lit "source=a | stats avg(x) by span(timestamp , 1d)"
    = lit "source=a | stats avg(x) by "
        ++ directive_text (lit "timestamp") [] (lit " ") (lit " 1d") ++ []
  /\ updateQuerySpanInterval
       (lit "source=a | stats avg(x) by span(timestamp , 1d)")
       (lit "timestamp") (lit "1M")
     = Some (Ret (lit "source=a | stats avg(x) by span(timestamp,1M)"))
  /\ updateQuerySpanInterval
       (lit "source=a | stats avg(x) by span(timestamp , 1d)")
       (lit "timestamp") (lit "1M")
     <> Some (Ret (lit "source=a | stats avg(x) by span(timestamp , 1M)"))
  /\ updateQuerySpanInterval
       (lit "source=a | stats avg(x) by span(timestamp , 1d)")
       (lit "timestamp") (lit "1M")
     <> Some (Ret (lit "source=a | stats avg(x) by span(timestamp ,1M)")).
Proof.
  split; [reflexivity|]. split; [reflexivity|].
  split; vm_compute; discriminate.
Qed.

(** What the side conditions on the field, on [spanParam] and on the
    interval keep out: a [$] pattern in [spanParam] is expanded by
    [replace], a field name that is not a well-formed piece of a
    pattern makes [new RegExp] throw, an interval that runs over a line
    break is no directive, and an interval ends at the first [)]. *)
Example span_update_dollar :
  updateQuerySpanInterval (lit "span(timestamp,1d) x") (lit "timestamp") (lit "$&")
  = Some (Ret (lit "span(timestamp,span(timestamp,1d)) x")).
Proof. reflexivity. Qed.

Example span_update_ill_formed :
  updateQuerySpanInterval (lit "source=a") (lit "(") (lit "1M")
  = Some (Throw SyntaxError).
Proof. reflexivity. Qed.

Example span_update_line_break :
  updateQuerySpanInterval (lit "span(timestamp," ++ [10%N] ++ lit "1d)")
                          (lit "timestamp") (lit "1M")
  = Some (Ret (lit "span(timestamp," ++ [10%N] ++ lit "1d)")).
Proof. reflexivity. Qed.

Example span_update_unclosed :
  updateQuerySpanInterval (lit "span(ts,f(1)) by x") (lit "ts") (lit "1M")
  = Some (Ret (lit "span(ts,1M)) by x")).
Proof. reflexivity. Qed.

Lemma C4_span_update_witness :
  updateQuerySpanInterval
    (lit "source=a | stats avg(x) by "
       ++ directive_text (lit "@timestamp") (lit " ") (lit " ") (lit " 1d")
       ++ lit " | head 5")
    (lit "@timestamp") (lit "1M")
  = Some (Ret (lit "source=a | stats avg(x) by "
                 ++ (lit "span(" ++ lit "@timestamp" ++ lit "," ++ lit "1M" ++ lit ")")
                 ++ lit " | head 5")).
Proof.
  apply (@C4_span_update (lit "@timestamp") (lit "1M")
           (lit "source=a | stats avg(x) by ") (lit " ") (lit " ") (lit " 1d")
           (lit " | head 5")); try reflexivity.
  apply leftmost_by_index; reflexivity.
Defined.

Lemma directive_has_field tf d c : directive tf d -> In c tf -> In c d.
Proof.
  intros (ws1 & ws2 & old & -> & _) Hc. unfold directive_text.
  apply in_or_app. right. apply in_or_app. right. apply in_or_app. now left.
Qed.

Lemma directive_has_p tf d : directive tf d -> In (ch "p") d.
Proof.
  intros (ws1 & ws2 & old & -> & _). unfold directive_text.
  change (lit "span(") with (ch "s" :: ch "p" :: lit "an(").
  right. left. reflexivity.
Qed.

(** Two queries without a span directive for the field that do not
    come back as they are.  With the field name [(] the pattern is
    ill-formed and the call throws a SyntaxError, here on a query
    without any span directive.  With the field name [a.b] the dot of
    the pattern stands for any character, so the directive of the
    other field [axb] is rewritten. *)
Lemma C5_span_update_identity_counterexample :
  (~ has_directive (lit "(") (lit "source=a | stats count()")
   /\ updateQuerySpanInterval (lit "source=a | stats count()") (lit "(") (lit "1M")
      = Some (Throw SyntaxError))
  /\ (~ has_directive (lit "a.b") (lit "source=a | stats count() by span(axb,1d)")
      /\ updateQuerySpanInterval
           (lit "source=a | stats count() by span(axb,1d)") (lit "a.b") (lit "1M")
         = Some (Ret (lit "source=a | stats count() by span(a.b,1M)"))
      /\ lit "source=a | stats count() by span(a.b,1M)"
         <> lit "source=a | stats count() by span(axb,1d)").
Proof.
  split; split.
  - intros (pre & d & post & Hq & Hd).
    apply directive_has_p in Hd.
    assert (Hin : In (ch "p") (lit "source=a | stats count()")).
    { rewrite Hq. apply in_or_app. right. apply in_or_app. now left. }
    vm_compute in Hin. repeat (destruct Hin as [Hin|Hin]; [discriminate Hin|]).
    exact Hin.
  - vm_compute. reflexivity.
  - intros (pre & d & post & Hq & Hd).
    assert (Hdot : In (ch ".") d).
    { apply (@directive_has_field (lit "a.b") d (ch ".") Hd).
      right. left. reflexivity. }
    assert (Hin : In (ch ".") (lit "source=a | stats count() by span(axb,1d)")).
    { rewrite Hq. apply in_or_app. right. apply in_or_app. now left. }
    vm_compute in Hin. repeat (destruct Hin as [Hin|Hin]; [discriminate Hin|]).
    exact Hin.
  - split; [vm_compute; reflexivity|]. vm_compute. discriminate.
Qed.

(** The query holds two span directives for the field [a.b], and the
    call rewrites neither: the dot of the pattern stands for any
    character, so the match is the directive of the other field [axb]
    in front of them, which is no directive for [a.b]. *)
Lemma C6_first_occurrence_only_counterexample :
  lit "span(axb,1d), span(a.b,1d), span(a.b,2d)"
    = lit "span(axb,1d), "
        ++ directive_text (lit "a.b") [] [] (lit "1d")
        ++ lit ", " ++ directive_text (lit "a.b") [] [] (lit "2d")
  /\ ~ directive (lit "a.b") (lit "span(axb,1d)")
  /\ updateQuerySpanInterval
       (lit "span(axb,1d), span(a.b,1d), span(a.b,2d)") (lit "a.b") (lit "1M")
     = Some (Ret (lit "span(a.b,1M), span(a.b,1d), span(a.b,2d)"))
  /\ updateQuerySpanInterval
       (lit "span(axb,1d), span(a.b,1d), span(a.b,2d)") (lit "a.b") (lit "1M")
     <> Some (Ret (lit "span(axb,1d), span(a.b,1M), span(a.b,2d)")).
Proof.
  split; [reflexivity|]. split; [|split].
  - intros Hd.
    assert (Hdot : In (ch ".") (lit "span(axb,1d)")).
    { apply (@directive_has_field (lit "a.b") (lit "span(axb,1d)") (ch ".") Hd).
      right. left. reflexivity. }
    vm_compute in Hdot. repeat (destruct Hdot as [Hdot|Hdot]; [discriminate Hdot|]).
    exact Hdot.
  - vm_compute. reflexivity.
  - vm_compute. discriminate.
Qed.

Lemma C5_span_update_identity_witness :
  updateQuerySpanInterval
    (lit "source=a | stats count() by span(other,1d)") (lit "a.b") (lit "1M")
  = Some (Ret (lit "source=a | stats count() by span(other,1d)"))
  /\ updateQuerySpanInterval
       (lit "source=a | stats count() by span(other,1d)") (lit "timestamp") (lit "1M")
     = Some (Ret (lit "source=a | stats count() by span(other,1d)")).
Proof.
  split.
  - eapply (proj1 (@C5_span_update_identity (lit "a.b")
              (lit "source=a | stats count() by span(other,1d)") (lit "1M")));
      [vm_compute; reflexivity | vm_compute; reflexivity].
  - apply (proj2 (@C5_span_update_identity (lit "timestamp")
              (lit "source=a | stats count() by span(other,1d)") (lit "1M"))).
    + reflexivity.
    + apply SpanFacts.no_directive_by_exec; reflexivity.
Defined.

Lemma C6_first_occurrence_only_witness :
  exists new,
    updateQuerySpanInterval
      (lit "source=a | stats avg(x) by "
         ++ directive_text (lit "timestamp") [] [] (lit "1d")
         ++ lit ", " ++ lit "span(timestamp,2d)" ++ [])
      (lit "timestamp") (lit "1M")
    = Some (Ret (lit "source=a | stats avg(x) by " ++ new
                   ++ lit ", " ++ lit "span(timestamp,2d)" ++ []))
    /\ (no_dollar (lit "1M") = true ->
        new = lit "span(" ++ lit "timestamp" ++ lit "," ++ lit "1M" ++ lit ")").
Proof.
  apply (@C6_first_occurrence_only (lit "timestamp") (lit "1M")
           (lit "source=a | stats avg(x) by ") [] [] (lit "1d")
           (lit ", ") (lit "span(timestamp,2d)") []); try reflexivity.
  - exists [], [], (lit "2d"). repeat split; reflexivity.
  - apply leftmost_by_index; reflexivity.
Defined.

(** ** [queryAccumulator] and [getQueryResponse] *)

Section UtilsFacts.

Context {lib : DateLib} {consts : SharedConstants}.
Import MatcherFacts.

Lemma getQueryResponse_throw query type startTime endTime filterQuery tsf error :
  queryAccumulator query tsf startTime endTime filterQuery = Throw error ->
  getQueryResponse query type startTime endTime filterQuery tsf
  = build_failure error.
Proof. intros H. unfold getQueryResponse. now rewrite H. Qed.

Lemma getQueryResponse_ret query type startTime endTime filterQuery tsf finalQuery :
  queryAccumulator query tsf startTime endTime filterQuery = Ret finalQuery ->
  getQueryResponse query type startTime endTime filterQuery tsf
  = [SetIsLoading true;
     SetIsError {| errorMessage := None; errorDetails := None |};
     PplFetch finalQuery (lit "jdbc")].
Proof. intros H. unfold getQueryResponse. now rewrite H. Qed.

Lemma str_match_exec s r :
  str_match s r = None <-> exec r s = None.
Proof. unfold str_match. destruct (exec r s); split; congruence. Qed.

Lemma convertDateTime_formatted datetime isStart :
  convertDateTime datetime isStart true =
  match dateMath_parse datetime (negb isStart) with
  | Some t => Ret (DtString (moment_format (moment_utc t) PPL_DATE_FORMAT))
  | None => Throw TypeError
  end.
Proof. unfold convertDateTime. now destruct isStart. Qed.

(** C1, as amended.  When the source-clause pattern matches and the
    date-math parser resolves the start and the end time,
    [queryAccumulator] returns the matched source clause, then the
    time filter [ | where <field> >= '<start>' and <field> <= '<end>']
    (the start parsed without rounding, the end with round-up, both
    formatted in UTC with [PPL_DATE_FORMAT]), then the filter clause
    ([ | ] and the panel filter, or nothing when the panel filter is
    empty), then the original query without the matched text. *)
Theorem C1_accumulator_shape
    (originalQuery timestampField startTime endTime panelFilterQuery : str)
    (mr : match_result) (ms me : Moment) :
  exec PPL_INDEX_REGEX originalQuery = Some mr ->
  dateMath_parse startTime false = Some ms ->
  dateMath_parse endTime true = Some me ->
  exists before_ sourceClause after_,
    originalQuery = before_ ++ sourceClause ++ after_
    /\ length before_ = m_index mr
    /\ sourceClause = matched originalQuery mr
    /\ queryAccumulator originalQuery timestampField startTime endTime
                        panelFilterQuery
       = Ret (sourceClause
                ++ (lit " | where " ++ timestampField ++ lit " >= '"
                      ++ moment_format (moment_utc ms) PPL_DATE_FORMAT
                      ++ lit "' and " ++ timestampField ++ lit " <= '"
                      ++ moment_format (moment_utc me) PPL_DATE_FORMAT
                      ++ lit "'")
                ++ (if str_eqb panelFilterQuery [] then []
                    else lit " | " ++ panelFilterQuery)
                ++ (before_ ++ after_)).
Proof.
  intros Hexec Hs He.
  destruct (exec_split _ _ Hexec)
    as (pre & w & post & Hq & _ & Hi & Hend & Hpre & Hw & Hpost).
  exists pre, w, post. repeat split; auto.
  unfold queryAccumulator, str_match, replace.
  rewrite Hexec, !convertDateTime_formatted. cbn [negb].
  rewrite Hs, He. cbn [bind ma_0].
  rewrite Hw, Hpre, Hpost. unfold timeQueryFilter, pplFilterQuery.
  cbn [datetime_to_string get_substitution].
  rewrite <- !app_assoc. reflexivity.
Qed.

(** C2. When the source-clause pattern does not match,
    [queryAccumulator] throws; [getQueryResponse] then reports
    "Issue in building final query", sets loading to false and issues
    no request to the PPL service. *)
Theorem C2_missing_source
    (query type startTime endTime filterQuery timestampField : str) :
  exec PPL_INDEX_REGEX query = None ->
  queryAccumulator query timestampField startTime endTime filterQuery
    = Throw (JsError (lit "index not found in Query"))
  /\ getQueryResponse query type startTime endTime filterQuery timestampField
     = [SetIsLoading true;
        SetIsError {| errorMessage := None; errorDetails := None |};
        SetIsError {| errorMessage := Some (lit "Issue in building final query");
                      errorDetails := None |};
        ConsoleError (lit "Issue in building final query")
                     (JsError (lit "index not found in Query"));
        SetIsLoading false]
  /\ existsb is_fetch
       (getQueryResponse query type startTime endTime filterQuery timestampField)
     = false.
Proof.
  intros Hexec.
  assert (H : queryAccumulator query timestampField startTime endTime filterQuery
              = Throw (JsError (lit "index not found in Query"))).
  { unfold queryAccumulator. now rewrite (proj2 (str_match_exec _ _) Hexec). }
  split; [exact H|].
  rewrite (getQueryResponse_throw _ _ _ _ _ _ H). split; reflexivity.
Qed.

(** C3. In every successful call the time filter is
    [ | where <field> >= '<start>' and <field> <= '<end>'], with the
    start resolved without rounding and the end with round-up, both
    rendered in UTC with [PPL_DATE_FORMAT]: the values of
    [convertDateTime(startTime)] and [convertDateTime(endTime, false)]. *)
Theorem C3_time_filter
    (originalQuery timestampField startTime endTime panelFilterQuery out : str) :
  queryAccumulator originalQuery timestampField startTime endTime panelFilterQuery
    = Ret out ->
  exists ms me formattedStart formattedEnd mr tail,
    dateMath_parse startTime false = Some ms
    /\ dateMath_parse endTime true = Some me
    /\ formattedStart = moment_format (moment_utc ms) PPL_DATE_FORMAT
    /\ formattedEnd = moment_format (moment_utc me) PPL_DATE_FORMAT
    /\ convertDateTime startTime true true = Ret (DtString formattedStart)
    /\ convertDateTime endTime false true = Ret (DtString formattedEnd)
    /\ exec PPL_INDEX_REGEX originalQuery = Some mr
    /\ out = matched originalQuery mr
              ++ (lit " | where " ++ timestampField ++ lit " >= '"
                    ++ formattedStart ++ lit "' and " ++ timestampField
                    ++ lit " <= '" ++ formattedEnd ++ lit "'")
              ++ tail.
Proof.
  unfold queryAccumulator, str_match. intros H.
  destruct (exec PPL_INDEX_REGEX originalQuery) as [mr|] eqn:Hm;
    [|discriminate].
  rewrite !convertDateTime_formatted in *. simpl in H.
  destruct (dateMath_parse startTime false) as [ms|] eqn:Hs; [|discriminate].
  destruct (dateMath_parse endTime true) as [me|] eqn:He; [|discriminate].
  simpl in H. injection H as <-.
  exists ms, me. do 2 eexists. exists mr. eexists.
  repeat split; try reflexivity; simpl; now rewrite ?Hs, ?He.
Qed.

(** C9. A start or end time that the date-math parser does not
    resolve makes [convertDateTime] throw on the undefined result, so
    [queryAccumulator] throws although the source clause is present;
    [getQueryResponse] reports the build failure and makes no
    request. *)
Theorem C9_unparsed_time
    (query type startTime endTime filterQuery timestampField : str) :
  dateMath_parse startTime false = None \/ dateMath_parse endTime true = None ->
  (convertDateTime startTime true true = Throw TypeError
   \/ convertDateTime endTime false true = Throw TypeError)
  /\ (exists error,
        queryAccumulator query timestampField startTime endTime filterQuery
          = Throw error
        /\ (test PPL_INDEX_REGEX query = true -> error = TypeError)
        /\ getQueryResponse query type startTime endTime filterQuery timestampField
           = [SetIsLoading true;
              SetIsError {| errorMessage := None; errorDetails := None |};
              SetIsError {| errorMessage := Some (lit "Issue in building final query");
                            errorDetails := None |};
              ConsoleError (lit "Issue in building final query") error;
              SetIsLoading false])
  /\ existsb is_fetch
       (getQueryResponse query type startTime endTime filterQuery timestampField)
     = false.
Proof.
  intros Hparse.
  assert (Hc : convertDateTime startTime true true = Throw TypeError
               \/ convertDateTime endTime false true = Throw TypeError).
  { rewrite !convertDateTime_formatted. simpl.
    destruct Hparse as [-> | ->]; auto. }
  assert (Hq : exists error,
             queryAccumulator query timestampField startTime endTime filterQuery
               = Throw error
             /\ (test PPL_INDEX_REGEX query = true -> error = TypeError)).
  { unfold queryAccumulator, str_match, test.
    destruct (exec PPL_INDEX_REGEX query) as [mr|].
    - exists TypeError. split; [|reflexivity].
      destruct Hc as [-> | Hc]; [reflexivity|]. rewrite Hc.
      destruct (convertDateTime startTime true true) as [v|e] eqn:E;
        [reflexivity|].
      rewrite convertDateTime_formatted in E.
      destruct (dateMath_parse startTime (negb true)); [discriminate|].
      injection E as <-. reflexivity.
    - eexists. split; [reflexivity|discriminate]. }
  destruct Hq as (error & Hq & Herr).
  split; [exact Hc|].
  rewrite (getQueryResponse_throw _ _ _ _ _ _ Hq).
  split; [|reflexivity]. exists error. auto.
Qed.

(** ** The validators *)

Lemma number_lt_defined a b :
  a <> NaN -> b <> NaN -> exists r, number_lt a b = Some r.
Proof.
  destruct a, b; intros Ha Hb; try congruence; simpl; eauto.
Qed.

(** Between two valid moments [>=] is the order of their times. *)
Lemma js_ge_moments (m n : Moment) (p q : Q) :
  moment_valueOf m = Fin p -> moment_valueOf n = Fin q ->
  js_ge (TMoment n) (TMoment m) = Qle_bool p q.
Proof.
  intros Hm Hn. unfold js_ge. simpl. rewrite Hm, Hn. simpl.
  now rewrite negb_involutive.
Qed.

Lemma str_ltb_le (s e : str) : str_ltb e s = false <-> str_le s e.
Proof.
  revert e. induction s as [|y s IH]; intros e.
  - destruct e; split; intros _; (reflexivity || constructor).
  - destruct e as [|x e]; cbn [str_ltb].
    + split; [discriminate|]. intros H. inversion H.
    + destruct (N.compare_spec x y) as [->|Hlt|Hgt].
      * rewrite N.ltb_irrefl, N.eqb_refl. cbn [orb andb]. rewrite IH. split.
        -- intros H. now constructor.
        -- intros H. inversion H; subst; [lia|assumption].
      * rewrite (proj2 (N.ltb_lt x y) Hlt). cbn [orb].
        split; [discriminate|]. intros H. inversion H; subst; lia.
      * rewrite (proj2 (N.ltb_ge x y)) by lia.
        rewrite (proj2 (N.eqb_neq x y)) by lia. cbn [orb andb].
        split; [|reflexivity]. intros _. now constructor.
Qed.

Lemma number_lt_le (a b : number) :
  a <> NaN -> b <> NaN ->
  (number_lt b a = Some false <-> number_le a b)
  /\ (number_lt b a = Some true <-> ~ number_le a b).
Proof.
  destruct a as [| |p|], b as [| |q|]; intros Ha Hb; try congruence;
    cbn [number_lt number_le];
    try (split; split; intros H;
         solve [reflexivity | exact I | discriminate H | now elim H
               | exfalso; apply H; exact I | intros H'; exact H']).
  assert (Hle : Qle_bool p q = true <-> (p <= q)%Q) by apply Qle_bool_iff.
  destruct (Qle_bool p q); cbn [negb]; split; split; intros H;
    try reflexivity; try discriminate H.
  - now apply Hle.
  - exfalso. apply H. now apply Hle.
  - apply Hle in H. discriminate H.
  - intros Hpq. apply Hle in Hpq. discriminate Hpq.
Qed.

(** C8. For resolved start and end times [isDateValid] returns true
    exactly when [end >= start], that is when the start comes first
    in the order of the texts, for two strings, and in the order of
    the times in milliseconds, for two moments; it then shows no
    toast, and when it returns false it calls the toast callback with
    "Time range entered is invalid". *)
Theorem C8_date_valid (start end_ : time_arg) (side : option str) :
  resolved_pair start end_ ->
  (fst (isDateValid start end_ side) = true <-> ends_not_before start end_)
  /\ (ends_not_before start end_ -> isDateValid start end_ side = (true, []))
  /\ (~ ends_not_before start end_ ->
      isDateValid start end_ side
      = (false, [Toast (lit "Time range entered is invalid") (lit "danger")
                       None side])).
Proof.
  intros Hres.
  assert (Hlt : js_lt end_ start = false <-> ends_not_before start end_).
  { destruct Hres as [s e | m n Hm Hn]; cbn [js_lt to_number].
    - rewrite str_ltb_le. split; [now constructor|].
      intros H. now inversion H.
    - destruct (number_lt_le Hm Hn) as [Hf Ht].
      destruct (number_lt_defined Hn Hm) as [[|] Hr]; rewrite Hr.
      + split; [discriminate|]. intros H. inversion H; subst.
        exfalso. now apply (proj1 Ht Hr).
      + split; [|reflexivity]. intros _. constructor. now apply Hf. }
  unfold isDateValid. destruct (js_lt end_ start); cbn [fst].
  - split; [split; [discriminate|]|split].
    + intros H. apply Hlt in H. discriminate H.
    + intros H. apply Hlt in H. discriminate H.
    + reflexivity.
  - split; [split; [intros _; now apply Hlt|reflexivity]|split].
    + reflexivity.
    + intros H. exfalso. apply H. now apply Hlt.
Qed.

(** C7. [isPPLFilterValid] rejects, with a toast, a filter in which
    [PPL_INDEX_REGEX] matches and a non-empty filter in which
    [PPL_WHERE_CLAUSE_REGEX] does not, and accepts every other filter;
    with the constants as the spec describes them it rejects
    [source=b | where x=1] and accepts [where x=1]. *)
Theorem C7_filter_validator (query : str) :
  (test PPL_INDEX_REGEX query = true ->
     isPPLFilterValid query
     = (false, [Toast (lit "Please remove index from PPL Filter") (lit "danger")
                      None None]))
  /\ (test PPL_INDEX_REGEX query = false -> query <> [] ->
      test PPL_WHERE_CLAUSE_REGEX query = false ->
      isPPLFilterValid query
      = (false, [Toast (lit "PPL filters should start with a where clause")
                       (lit "danger") None None]))
  /\ (query <> [] -> test PPL_WHERE_CLAUSE_REGEX query = false ->
      fst (isPPLFilterValid query) = false)
  /\ (test PPL_INDEX_REGEX query = false ->
      query = [] \/ test PPL_WHERE_CLAUSE_REGEX query = true ->
      isPPLFilterValid query = (true, []))
  /\ fst (isPPLFilterValid (consts := spec_constants PPL_DATE_FORMAT)
                           (lit "source=b | where x=1")) = false
  /\ isPPLFilterValid (consts := spec_constants PPL_DATE_FORMAT)
                      (lit "where x=1") = (true, []).
Proof.
  unfold isPPLFilterValid, checkIndexExists, checkWhereClauseExists, truthy.
  repeat split.
  - now intros ->.
  - intros -> Hne ->. destruct (str_eqb query []) eqn:E; [|reflexivity].
    apply str_eqb_nil in E. contradiction.
  - intros Hne ->. destruct (test PPL_INDEX_REGEX query); [reflexivity|].
    destruct (str_eqb query []) eqn:E; [|reflexivity].
    apply str_eqb_nil in E. contradiction.
  - intros -> [-> | ->]; [reflexivity|].
    destruct (negb (str_eqb query [])); reflexivity.
Qed.

End UtilsFacts.

(** The spec's example of a query without a source clause. *)
Example stats_only_has_no_source :
  exec PPL_INDEX_REGEX_spec (lit "| stats count()") = None.
Proof. reflexivity. Qed.

(** A comparison with an undefined bound is false, so the range
    passes. *)
Example date_valid_undefined :
  isDateValid (lib := sample_lib) TUndefined (TString (lit "now")) None = (true, []).
Proof. reflexivity. Qed.

Lemma C1_accumulator_shape_witness :
  exists before_ sourceClause after_,
    lit "source = logs | stats count()" = before_ ++ sourceClause ++ after_
    /\ length before_ = 0
    /\ sourceClause = lit "source = logs"
    /\ queryAccumulator (lib := sample_lib) (consts := sample_constants)
         (lit "source = logs | stats count()") (lit "timestamp")
         (lit "now/d") (lit "now/d") (lit "where x=1")
       = Ret (sourceClause
                ++ (lit " | where " ++ lit "timestamp" ++ lit " >= '"
                      ++ lit "1970-01-01 00:00:00"
                      ++ lit "' and " ++ lit "timestamp" ++ lit " <= '"
                      ++ lit "1970-01-01 23:59:59"
                      ++ lit "'")
                ++ (lit " | where x=1")
                ++ (before_ ++ after_)).
Proof.
  apply (@C1_accumulator_shape sample_lib sample_constants
           (lit "source = logs | stats count()") (lit "timestamp")
           (lit "now/d") (lit "now/d") (lit "where x=1")
           (MatchResult 0 13 [(1, (0, 6))]) 0%Z 86399999%Z); reflexivity.
Defined.

(** The source clause is there, and yet nothing is returned: the
    parser gives up on the start time [now-], [convertDateTime] reads
    [utc] off the undefined result, and the TypeError leaves
    [queryAccumulator]. *)
Lemma C1_accumulator_shape_counterexample :
  test PPL_INDEX_REGEX_spec (lit "source = logs | stats count()") = true
  /\ dateMath_parse (DateLib := sample_lib) (lit "now-") false = None
  /\ queryAccumulator (lib := sample_lib) (consts := sample_constants)
       (lit "source = logs | stats count()") (lit "timestamp")
       (lit "now-") (lit "now") []
     = Throw TypeError
  /\ forall out,
       queryAccumulator (lib := sample_lib) (consts := sample_constants)
         (lit "source = logs | stats count()") (lit "timestamp")
         (lit "now-") (lit "now") []
       <> Ret out.
Proof.
  split; [reflexivity|]. split; [reflexivity|]. split; [reflexivity|].
  intros out H. vm_compute in H. discriminate H.
Qed.

Lemma C2_missing_source_witness :
  queryAccumulator (lib := sample_lib) (consts := sample_constants)
    (lit "| stats count()") (lit "timestamp") (lit "now") (lit "now") []
  = Throw (JsError (lit "index not found in Query"))
  /\ getQueryResponse (lib := sample_lib) (consts := sample_constants)
       (lit "| stats count()") (lit "line") (lit "now") (lit "now") []
       (lit "timestamp")
     = build_failure (JsError (lit "index not found in Query"))
  /\ existsb is_fetch
       (getQueryResponse (lib := sample_lib) (consts := sample_constants)
          (lit "| stats count()") (lit "line") (lit "now") (lit "now") []
          (lit "timestamp")) = false.
Proof.
  apply (@C2_missing_source sample_lib sample_constants). reflexivity.
Defined.

Lemma C3_time_filter_witness :
  exists ms me formattedStart formattedEnd mr tail,
    dateMath_parse (DateLib := sample_lib) (lit "now") false = Some ms
    /\ dateMath_parse (DateLib := sample_lib) (lit "now") true = Some me
    /\ formattedStart = moment_format (DateLib := sample_lib) (moment_utc ms)
                          PPL_DATE_FORMAT_spec
    /\ formattedEnd = moment_format (DateLib := sample_lib) (moment_utc me)
                        PPL_DATE_FORMAT_spec
    /\ convertDateTime (lib := sample_lib) (consts := sample_constants)
         (lit "now") true true = Ret (DtString formattedStart)
    /\ convertDateTime (lib := sample_lib) (consts := sample_constants)
         (lit "now") false true = Ret (DtString formattedEnd)
    /\ exec PPL_INDEX_REGEX_spec (lit "source = logs | stats count()") = Some mr
    /\ lit "source = logs | where timestamp >= '1970-01-01 23:59:59' and timestamp <= '1970-01-01 23:59:59' | stats count()"
       = matched (lit "source = logs | stats count()") mr
           ++ (lit " | where " ++ lit "timestamp" ++ lit " >= '"
                 ++ formattedStart ++ lit "' and " ++ lit "timestamp"
                 ++ lit " <= '" ++ formattedEnd ++ lit "'")
           ++ tail.
Proof.
  apply (@C3_time_filter sample_lib sample_constants
           (lit "source = logs | stats count()") (lit "timestamp")
           (lit "now") (lit "now") []). reflexivity.
Defined.

Lemma C9_unparsed_time_witness :
  existsb is_fetch
    (getQueryResponse (lib := sample_lib) (consts := sample_constants)
       (lit "source = logs") (lit "line") (lit "now-") (lit "now") []
       (lit "timestamp")) = false.
Proof.
  apply (@C9_unparsed_time sample_lib sample_constants
           (lit "source = logs") (lit "line") (lit "now-") (lit "now") []
           (lit "timestamp")).
  left. reflexivity.
Defined.

Lemma C8_date_valid_witness :
  isDateValid (lib := sample_lib) (@TMoment sample_lib 86399999%Z) (@TMoment sample_lib 0%Z) None
  = (false, [Toast (lit "Time range entered is invalid") (lit "danger") None None])
  /\ isDateValid (lib := sample_lib) (@TMoment sample_lib 0%Z) (@TMoment sample_lib 86399999%Z) None
     = (true, [])
  /\ isDateValid (lib := sample_lib)
       (TString (lit "1970-01-01 00:00:00")) (TString (lit "1970-01-01 23:59:59"))
       None
     = (true, []).
Proof.
  split; [|split].
  - apply (@C8_date_valid sample_lib (@TMoment sample_lib 86399999%Z) (@TMoment sample_lib 0%Z) None).
    + apply resolved_moments; discriminate.
    + intros H. inversion H as [|m n Hle]; subst.
      vm_compute in Hle. now apply Hle.
  - apply (@C8_date_valid sample_lib (@TMoment sample_lib 0%Z) (@TMoment sample_lib 86399999%Z) None).
    + apply resolved_moments; discriminate.
    + apply enb_moments. vm_compute. discriminate.
  - apply (@C8_date_valid sample_lib
             (TString (lit "1970-01-01 00:00:00"))
             (TString (lit "1970-01-01 23:59:59")) None).
    + apply resolved_strings.
    + apply enb_strings. apply str_ltb_le. reflexivity.
Defined.

Lemma C7_filter_validator_witness :
  isPPLFilterValid (consts := sample_constants) (lit "stats count()")
  = (false, [Toast (lit "PPL filters should start with a where clause")
                   (lit "danger") None None]).
Proof.
  apply (proj1 (proj2 (@C7_filter_validator sample_constants (lit "stats count()"))));
    [reflexivity | discriminate | reflexivity].
Defined.

(* ================================================================== *)
(** * Further properties of the helpers *)

(** ** [isNameValid] *)

(** X1. A name is valid exactly when it has between 1 and 49 code
    units: the empty name and a name of 50 are both rejected. *)
Theorem X1_name_valid_bounds (name : str) :
  isNameValid name = true <-> 1 <= length name <= 49.
Proof.
  unfold isNameValid.
  destruct (Nat.leb_spec 50 (length name)) as [H1|H1];
    destruct (Nat.eqb_spec (length name) 0) as [H2|H2]; cbn [orb];
    split; intros H; try discriminate H; try reflexivity; lia.
Qed.

(** ** Recently used ranges *)

Lemma same_key_iff start end_ r :
  same_key start end_ r = true <-> range_key r = (start, end_).
Proof.
  unfold same_key, range_key. rewrite andb_true_iff, !str_eqb_eq.
  split; [intros [-> ->]; reflexivity | intros H; injection H; auto].
Qed.

Lemma rejectRecentRange_filter rs start end_ :
  rejectRecentRange rs (range_of start end_)
  = filter (fun r => negb (same_key start end_ r)) rs.
Proof. reflexivity. Qed.

Lemma filter_same_key_rejected start end_ rs :
  filter (same_key start end_) (filter (fun r => negb (same_key start end_ r)) rs) = [].
Proof.
  induction rs as [|r rs IH]; simpl; [reflexivity|].
  destruct (same_key start end_ r) eqn:E; simpl; [assumption|].
  now rewrite E.
Qed.

(** X2. In the list [prependRecentlyUsedRange] returns, the range just
    used comes first, without a label, and no other entry has its
    start and end; every entry with another start or end is there
    exactly when it was in the list before. *)
Theorem X2_prepend_range_once (start end_ : str) (rs : list DurationRange) :
  exists rest,
    prependRecentlyUsedRange start end_ rs = range_of start end_ :: rest
    /\ (forall r, In r rest -> range_key r <> (start, end_))
    /\ (forall r, range_key r <> (start, end_) -> (In r rest <-> In r rs))
    /\ length rest + length (filter (same_key start end_) rs) = length rs.
Proof.
  exists (filter (fun r => negb (same_key start end_ r)) rs).
  split; [reflexivity|]. split; [|split].
  - intros r Hr. apply filter_In in Hr as [_ Hr]. apply negb_true_iff in Hr.
    intros Hk. apply same_key_iff in Hk. congruence.
  - intros r Hk. rewrite filter_In. split; [tauto|]. intros Hr. split; [assumption|].
    apply negb_true_iff. destruct (same_key start end_ r) eqn:E; [|reflexivity].
    apply same_key_iff in E. contradiction.
  - induction rs as [|r rs IH]; simpl; [reflexivity|].
    destruct (same_key start end_ r); simpl; lia.
Qed.

Lemma map_key_filter (P : DurationRange -> bool) rs :
  NoDup (map range_key rs) -> NoDup (map range_key (filter P rs)).
Proof.
  induction rs as [|r rs IH]; simpl; intros H; [constructor|].
  inversion H as [|k ks Hnotin Hnd]; subst.
  destruct (P r); simpl; [|auto].
  constructor; [|auto].
  intros Hin. apply Hnotin. apply in_map_iff in Hin as (r' & Hk & Hr').
  apply filter_In in Hr' as [Hr' _]. apply in_map_iff. eauto.
Qed.

(** X3. A list in which no two ranges share start and end stays such
    a list when a range is prepended. *)
Theorem X3_prepend_keeps_distinct (start end_ : str) (rs : list DurationRange) :
  NoDup (map range_key rs) ->
  NoDup (map range_key (prependRecentlyUsedRange start end_ rs)).
Proof.
  intros H. unfold prependRecentlyUsedRange. simpl. constructor.
  - intros Hin. apply in_map_iff in Hin as (r & Hk & Hr).
    rewrite rejectRecentRange_filter in Hr.
    apply filter_In in Hr as [_ Hr]. apply negb_true_iff in Hr.
    change (range_key r = (start, end_)) in Hk.
    apply same_key_iff in Hk. congruence.
  - rewrite rejectRecentRange_filter. now apply map_key_filter.
Qed.

Lemma X3_prepend_keeps_distinct_witness :
  NoDup (map range_key
    (prependRecentlyUsedRange (lit "now-15m") (lit "now")
       [range_of (lit "now-1d") (lit "now"); range_of (lit "now-15m") (lit "now")])).
Proof.
  apply X3_prepend_keeps_distinct. simpl.
  constructor; [|constructor; [|constructor]]; simpl.
  - intros [H|[]]. discriminate H.
  - intros [].
Defined.

Lemma filter_idem {A} (P : A -> bool) (l : list A) :
  filter P (filter P l) = filter P l.
Proof.
  induction l as [|a l IH]; simpl; [reflexivity|].
  destruct (P a) eqn:Ep; simpl; rewrite ?Ep, IH; reflexivity.
Qed.

(** X4. Prepending is a move to the front: using the same range twice
    changes nothing more, and using a second range after a first puts
    the second in front of the first, whatever the order in which the
    two were in the list. *)
Theorem X4_prepend_move_to_front (s1 e1 s2 e2 : str) (rs : list DurationRange) :
  prependRecentlyUsedRange s1 e1 (prependRecentlyUsedRange s1 e1 rs)
    = prependRecentlyUsedRange s1 e1 rs
  /\ ((s1, e1) <> (s2, e2) ->
      prependRecentlyUsedRange s2 e2 (prependRecentlyUsedRange s1 e1 rs)
      = range_of s2 e2 :: range_of s1 e1
          :: filter (fun r => negb (same_key s1 e1 r) && negb (same_key s2 e2 r)) rs).
Proof.
  unfold prependRecentlyUsedRange. rewrite !rejectRecentRange_filter. split.
  - cbn [filter]. unfold same_key at 1. cbn [dr_start dr_end range_of].
    rewrite !str_eqb_refl. cbn [andb negb].
    now rewrite filter_idem.
  - intros Hne. cbn [filter].
    destruct (same_key s2 e2 (range_of s1 e1)) eqn:E.
    + apply same_key_iff in E. unfold range_key in E. simpl in E.
      contradiction.
    + cbn [negb]. do 2 f_equal.
      induction rs as [|r rs IH]; simpl; [reflexivity|].
      destruct (same_key s1 e1 r); simpl; [assumption|].
      destruct (same_key s2 e2 r); simpl; [assumption|now rewrite IH].
Qed.

(** X5. [onTimeChange] hands back the start and end it was given,
    with the list of ranges that [prependRecentlyUsedRange] returns for
    them: the range now in use first, and no other entry with its start
    and end. Choosing the same range again leaves the list as it is. *)
Theorem X5_onTimeChange_agrees (start end_ : str) (rs : list DurationRange) :
  let changed := onTimeChange start end_ rs in
  tc_start changed = start
  /\ tc_end changed = end_
  /\ tc_updatedRanges changed = prependRecentlyUsedRange start end_ rs
  /\ hd_error (tc_updatedRanges changed) = Some (range_of start end_)
  /\ filter (same_key start end_) (tl (tc_updatedRanges changed)) = []
  /\ tc_updatedRanges (onTimeChange start end_ (tc_updatedRanges changed))
     = tc_updatedRanges changed.
Proof.
  cbv zeta. repeat split.
  - apply filter_same_key_rejected.
  - cbn [onTimeChange tc_updatedRanges filter dr_start dr_end range_of].
    rewrite !str_eqb_refl. cbn [andb negb]. f_equal.
    apply (filter_idem (fun r => negb (same_key start end_ r))).
Qed.

(** ** Toasts *)

Section ToastFacts.

Context {platform : Platform}.

Lemma dismiss_app (a b : list EaToast) r :
  dismissToast (a ++ b) r = dismissToast a r ++ dismissToast b r.
Proof. unfold dismissToast. apply filter_app. Qed.

Lemma dismiss_unchanged (toasts : list EaToast) r :
  dismissToast toasts r = toasts <-> forall t, In t toasts -> t_id t <> t_id r.
Proof.
  unfold dismissToast. induction toasts as [|t ts IH]; simpl.
  - split; [intros _ ? []|reflexivity].
  - destruct (str_eqb (t_id t) (t_id r)) eqn:E; simpl.
    + split.
      * intros H. exfalso.
        assert (Hl : length (filter (fun toast => negb (str_eqb (t_id toast) (t_id r))) ts)
                     <= length ts) by apply filter_length_le.
        rewrite H in Hl. simpl in Hl. lia.
      * intros H. exfalso. apply (H t); [now left|]. now apply str_eqb_eq.
    + split.
      * intros H. injection H as H. intros t' [<-|Hin].
        -- intros Heq. apply str_eqb_eq in Heq. congruence.
        -- now apply IH.
      * intros H. f_equal. apply IH. intros t' Hin. apply H. now right.
Qed.

(** X6. Dismissing the toast just shown gives back the toasts there
    were before exactly when none of them carries the same time stamp:
    an earlier toast made in the same millisecond is removed with it. *)
Theorem X6_toast_round_trip (toasts : list EaToast) (now title : str)
    (color : option str) (text : option ReactChild) (side : option str)
    (shown : EaToast) :
  t_id shown = now ->
  (dismissToast (setToast toasts now title color text side) shown = toasts
   <-> forall t, In t toasts -> t_id t <> now).
Proof.
  unfold setToast. intros <-.
  rewrite dismiss_app. cbn [dismissToast filter t_id].
  rewrite str_eqb_refl. cbn [negb]. rewrite app_nil_r.
  apply dismiss_unchanged.
Qed.

(** X7. Whatever is passed for them, the toast that is added has a
    text and a colour: a text that JavaScript takes for false (none,
    the empty string, 0, NaN) becomes the empty string, a colour left
    out becomes [success]; the toasts shown before stay, in order, in
    front of it. *)
Theorem X7_toast_defaults (toasts : list EaToast) (now title : str)
    (color : option str) (text : option ReactChild) (side : option str) :
  exists added,
    setToast toasts now title color text side = toasts ++ [added]
    /\ t_id added = now /\ t_title added = title
    /\ t_color added = match color with Some c => c | None => lit "success" end
    /\ (child_truthy text = false -> t_text added = ChildString [])
    /\ (child_truthy text = true -> Some (t_text added) = text).
Proof.
  unfold setToast. eexists. split; [reflexivity|]. cbn [t_id t_title t_color t_text].
  repeat split.
  - intros ->. reflexivity.
  - intros H. rewrite H. cbn [negb]. destruct text; [reflexivity|discriminate H].
Qed.

(** ** The empty tab *)

Variable queries : str -> option QueryEntry.
Variable explorerData : str -> option TabData.

Lemma element_middle {A} (pre : list A) (t : A) (post : list A) :
  element (pre ++ t :: post) (length pre) = Ret t.
Proof.
  unfold element. rewrite nth_error_app2 by lia.
  now rewrite Nat.sub_diag.
Qed.

Lemma empty_tab_scan (pre before rest : list str) (st : str) :
  Forall (fun b => tab_is_empty queries explorerData b = Ret false) before ->
  for_loop_break (length before + length rest) (length pre)
    (tab_body queries explorerData (pre ++ before ++ rest)) st
  = for_loop_break (length rest) (length pre + length before)
      (tab_body queries explorerData (pre ++ before ++ rest)) st.
Proof.
  revert pre. induction before as [|b before IH]; intros pre H.
  - cbn [app length Nat.add]. now rewrite Nat.add_0_r.
  - inversion H as [|? ? Hb Hrest]; subst.
    cbn [app length for_loop_break Nat.add]. unfold tab_body at 1.
    rewrite element_middle. cbn [bind]. rewrite Hb. cbn [bind snd fst].
    specialize (IH (pre ++ [b]) Hrest).
    rewrite <- !app_assoc in IH. cbn [app] in IH.
    rewrite length_app in IH. cbn [length] in IH.
    replace (length pre + 1) with (S (length pre)) in IH by lia.
    rewrite IH. f_equal. lia.
Qed.

Lemma empty_tab_scan_all (before rest : list str) :
  Forall (fun b => tab_is_empty queries explorerData b = Ret false) before ->
  getExistingEmptyTab (before ++ rest) queries explorerData
  = for_loop_break (length rest) (length before) (tab_body queries explorerData (before ++ rest)) [].
Proof.
  intros H. unfold getExistingEmptyTab. rewrite length_app.
  exact (@empty_tab_scan [] before rest [] H).
Qed.

(** X8. [getExistingEmptyTab] returns the first tab, in the order of
    [tabIds], whose query text and data are both empty; the tabs after
    it are not looked at, so one of them may lack its entry in
    [queries]. *)
Theorem X8_first_empty_tab (before after : list str) (t : str) :
  Forall (fun b => tab_is_empty queries explorerData b = Ret false) before ->
  tab_is_empty queries explorerData t = Ret true ->
  getExistingEmptyTab (before ++ t :: after) queries explorerData = Ret t.
Proof.
  intros Hb Ht. rewrite empty_tab_scan_all by assumption.
  cbn [length for_loop_break]. unfold tab_body at 1.
  rewrite element_middle. cbn [bind]. rewrite Ht. reflexivity.
Qed.

(** X9. When no tab is empty the answer is the empty string; and a tab
    without an entry in [queries] that is met before any empty tab
    makes the call throw a TypeError, also when an empty tab follows. *)
Theorem X9_no_empty_tab (tabIds after : list str) (t : str) :
  Forall (fun b => tab_is_empty queries explorerData b = Ret false) tabIds ->
  getExistingEmptyTab tabIds queries explorerData = Ret []
  /\ (queries t = None ->
      getExistingEmptyTab (tabIds ++ t :: after) queries explorerData
      = Throw TypeError).
Proof.
  intros Hb. split.
  - rewrite <- (app_nil_r tabIds) at 1.
    rewrite empty_tab_scan_all by assumption. reflexivity.
  - intros Hq. rewrite empty_tab_scan_all by assumption.
    cbn [length for_loop_break]. unfold tab_body at 1.
    rewrite element_middle. cbn [bind]. unfold tab_is_empty. rewrite Hq. reflexivity.
Qed.

End ToastFacts.

(** ** Times and the final query *)

Lemma str_ltb_irrefl (a : str) : str_ltb a a = false.
Proof.
  induction a as [|x a IH]; [reflexivity|]. cbn [str_ltb].
  now rewrite N.ltb_irrefl, N.eqb_refl, IH.
Qed.

Lemma str_ltb_asym (a b : str) : str_ltb a b = true -> str_ltb b a = false.
Proof.
  revert b. induction a as [|x a IH]; intros [|y b]; cbn [str_ltb]; try easy.
  intros H. apply orb_true_iff in H as [H|H].
  - apply N.ltb_lt in H.
    rewrite (proj2 (N.ltb_ge y x)) by lia.
    rewrite (proj2 (N.eqb_neq y x)) by lia. reflexivity.
  - apply andb_true_iff in H as [Hxy H]. apply N.eqb_eq in Hxy. subst y.
    now rewrite N.ltb_irrefl, N.eqb_refl, (IH _ H).
Qed.

Lemma number_lt_irrefl (a : number) : number_lt a a <> Some true.
Proof.
  destruct a; cbn; try discriminate.
  intros H. injection H as H. apply negb_true_iff in H.
  assert (Hq : Qle_bool q q = true) by (apply Qle_bool_iff; apply Qle_refl).
  congruence.
Qed.

Lemma number_lt_asym (a b : number) :
  number_lt a b = Some true -> number_lt b a = Some false.
Proof.
  destruct a, b; cbn; try discriminate; try reflexivity.
  intros H. injection H as H. apply negb_true_iff in H. f_equal.
  apply negb_false_iff. apply Qle_bool_iff.
  destruct (Qlt_le_dec q q0) as [Hlt|Hle].
  - now apply Qlt_le_weak.
  - apply Qle_bool_iff in Hle. congruence.
Qed.

Section TimeFacts.

Context {lib : DateLib} {consts : SharedConstants}.

(** X10. [convertDateTime] throws exactly when it is asked for the
    formatted time of a text the date-math parser does not resolve;
    asked for the unformatted time it always returns: the moment, or
    [undefined] for such a text. The start is parsed without rounding,
    the end with round-up. *)
Theorem X10_convertDateTime_throws (datetime : str) (isStart formatted : bool) :
  ((exists e, convertDateTime datetime isStart formatted = Throw e)
   <-> formatted = true /\ dateMath_parse datetime (negb isStart) = None)
  /\ convertDateTime datetime isStart false
     = Ret (match dateMath_parse datetime (negb isStart) with
            | Some t => DtMoment t
            | None => DtUndefined
            end).
Proof.
  unfold convertDateTime. split.
  - destruct isStart, formatted; cbn [negb];
      match goal with
      | |- context [dateMath_parse datetime ?b] =>
        destruct (dateMath_parse datetime b) eqn:E
      end;
      split; try (intros [e He]; discriminate He);
      try (intros [H1 H2]; discriminate);
      try (intros _; split; reflexivity);
      try (intros _; eexists; reflexivity).
  - destruct isStart; reflexivity.
Qed.

(** X11. [queryAccumulator] returns a query exactly when the source
    pattern matches the original query and the parser resolves both
    the start and the end; neither the time field nor the panel filter
    has a part in it. When it throws, it is the missing source that is
    reported if the pattern does not match, whatever the times are. *)
Theorem X11_accumulator_returns
    (originalQuery timestampField startTime endTime panelFilterQuery : str) :
  ((exists out,
      queryAccumulator originalQuery timestampField startTime endTime
                       panelFilterQuery = Ret out)
   <-> test PPL_INDEX_REGEX originalQuery = true
       /\ dateMath_parse startTime false <> None
       /\ dateMath_parse endTime true <> None)
  /\ (test PPL_INDEX_REGEX originalQuery = false ->
      queryAccumulator originalQuery timestampField startTime endTime
                       panelFilterQuery
      = Throw (JsError (lit "index not found in Query"))).
Proof.
  unfold queryAccumulator, str_match, test.
  destruct (exec PPL_INDEX_REGEX originalQuery) as [mr|].
  - split; [|discriminate]. unfold convertDateTime. cbn [bind].
    destruct (dateMath_parse startTime false) as [ms|]; cbn [bind].
    + destruct (dateMath_parse endTime true) as [me|]; cbn [bind].
      * split; [intros _; repeat split; discriminate|intros _; eexists; reflexivity].
      * split; [intros [out H]; discriminate H|intros (_ & _ & H); now contradiction H].
    + split; [intros [out H]; discriminate H|intros (_ & H & _); now contradiction H].
  - split; [|reflexivity].
    split; [intros [out H]; discriminate H|intros (H & _); discriminate H].
Qed.

Lemma js_lt_asym (a b : time_arg) : js_lt a b = true -> js_lt b a = false.
Proof.
  assert (Hn : forall x y,
             match number_lt x y with Some r => r | None => false end = true ->
             match number_lt y x with Some r => r | None => false end = false).
  { intros x y H. destruct (number_lt x y) as [[|]|] eqn:E; try discriminate H.
    now rewrite (number_lt_asym _ _ E). }
  destruct a, b; cbn [js_lt]; try apply Hn. apply str_ltb_asym.
Qed.

Lemma js_lt_irrefl (a : time_arg) : js_lt a a = false.
Proof.
  destruct a; cbn [js_lt]; [apply str_ltb_irrefl| |].
  - destruct (number_lt (to_number (TMoment m)) (to_number (TMoment m)))
      as [[|]|] eqn:E; try reflexivity.
    now apply number_lt_irrefl in E.
  - reflexivity.
Qed.

(** X12. [isDateValid] rejects a range only when its end lies
    strictly before its start: a range whose two ends are the same
    value passes, and of a range and the range with start and end
    exchanged at most one is rejected. *)
Theorem X12_date_valid_order (a b : time_arg) (side side' : option str) :
  isDateValid a a side = (true, [])
  /\ (fst (isDateValid a b side) = false -> isDateValid b a side' = (true, [])).
Proof.
  unfold isDateValid. split.
  - now rewrite js_lt_irrefl.
  - destruct (js_lt b a) eqn:E; [|discriminate]. intros _.
    now rewrite (js_lt_asym _ _ E).
Qed.

(** X13. A range with an [undefined] bound is never rejected, and no
    toast is shown for it: this is what [convertDateTime] returns,
    unformatted, for a text the parser does not resolve. *)
Theorem X13_date_valid_undefined (a : time_arg) (side : option str) :
  isDateValid TUndefined a side = (true, [])
  /\ isDateValid a TUndefined side = (true, []).
Proof.
  unfold isDateValid. split; destruct a; cbn [js_lt to_number number_lt];
    try reflexivity;
    match goal with
    | |- context [number_lt ?x NaN] => now destruct x
    end.
Qed.

(** X14. Every call of [getQueryResponse] first sets loading and
    resets the error, and then does one of two things: it sends one
    request to the PPL service and leaves loading set, when
    [queryAccumulator] returns; or it sends none, reports the failure
    and clears loading, when [queryAccumulator] throws. *)
Theorem X14_query_response_dichotomy
    (query type startTime endTime filterQuery timestampField : str) :
  let trace :=
    getQueryResponse query type startTime endTime filterQuery timestampField in
  firstn 2 trace
    = [SetIsLoading true; SetIsError {| errorMessage := None; errorDetails := None |}]
  /\ ((exists finalQuery,
         queryAccumulator query timestampField startTime endTime filterQuery
           = Ret finalQuery
         /\ skipn 2 trace = [PplFetch finalQuery (lit "jdbc")])
      \/ (exists error,
            queryAccumulator query timestampField startTime endTime filterQuery
              = Throw error
            /\ existsb is_fetch trace = false
            /\ last trace (SetIsLoading true) = SetIsLoading false)).
Proof.
  cbv zeta. unfold getQueryResponse.
  destruct (queryAccumulator query timestampField startTime endTime filterQuery)
    as [finalQuery|error].
  - split; [reflexivity|]. left. exists finalQuery. split; reflexivity.
  - split; [reflexivity|]. right. exists error. repeat split.
Qed.

End TimeFacts.

(** ** The panel helpers *)

Section PanelFacts.

Context {lib : DateLib} {consts : SharedConstants} {platform : Platform}.

Lemma fetch_catch_shape (error : FetchError) (effects : list panel_effect) :
  fetch_catch error = Ret effects ->
  exists message details body,
    fe_body error = Some body
    /\ effects = [SetIsErrorReason message details; ConsoleErrorBody body].
Proof.
  unfold fetch_catch. destruct (fe_body error) as [body|]; [|discriminate].
  cbn [bind].
  destruct (JSON_parse _) as [parsed|]; [|discriminate]. cbn [bind].
  destruct (get_member (Some parsed) (lit "error")) as [err|]; [|discriminate].
  cbn [bind].
  destruct (get_member err (lit "reason")) as [reason|]; [|discriminate].
  cbn [bind].
  destruct (get_member err (lit "details")) as [details|]; [|discriminate].
  cbn [bind]. intros H. injection H as <-. eauto.
Qed.

Lemma request_settles (settlement : fetch_settlement) :
  let effects := fst (pplServiceRequestor_settled settlement) in
  last effects (Eff (SetIsLoading true)) = Eff (SetIsLoading false)
  /\ length (filter (sets_loading false) effects) = 1
  /\ filter (sets_loading true) effects = []
  /\ filter sends_request effects = [].
Proof.
  cbv zeta. destruct settlement as [res|error]; cbn [pplServiceRequestor_settled].
  - destruct res; cbn; repeat split.
  - destruct (fetch_catch error) as [effects|e] eqn:E.
    + apply fetch_catch_shape in E as (m & d & b & _ & ->). repeat split.
    + repeat split.
Qed.

Lemma last_app_nonempty {A} (l1 l2 : list A) (d : A) :
  l2 <> [] -> last (l1 ++ l2) d = last l2 d.
Proof.
  intros H. induction l1 as [|a l1 IH]; [reflexivity|].
  cbn [app]. destruct (l1 ++ l2) eqn:E.
  - apply app_eq_nil in E as [_ E]. contradiction.
  - rewrite <- IH. reflexivity.
Qed.

(** X15. However the request settles, [pplServiceRequestor] clears
    loading exactly once, as the last thing it does, and never sets
    it.  When the request is fulfilled with a response it hands the
    response to [setVisualizationData] and does nothing else before
    clearing loading; when it is fulfilled with [undefined] it first
    calls [setIsError] with "Please check the validity of PPL Filter",
    then hands [undefined] to [setVisualizationData]; in both cases
    its promise does not reject.  When the request is rejected
    [setVisualizationData] is not called. *)
Theorem X15_request_settles (settlement : fetch_settlement) :
  let effects := fst (pplServiceRequestor_settled settlement) in
  last effects (Eff (SetIsLoading true)) = Eff (SetIsLoading false)
  /\ length (filter (sets_loading false) effects) = 1
  /\ filter (sets_loading true) effects = []
  /\ match settlement with
     | FetchFulfilled (Some response) =>
       pplServiceRequestor_settled settlement
       = ([SetVisualizationData (Some response); Eff (SetIsLoading false)], None)
     | FetchFulfilled None =>
       pplServiceRequestor_settled settlement
       = ([Eff (SetIsError
             {| errorMessage := Some (lit "Please check the validity of PPL Filter");
                errorDetails := None |});
           SetVisualizationData None;
           Eff (SetIsLoading false)], None)
     | FetchRejected _ => filter sets_data effects = []
     end.
Proof.
  cbv zeta. destruct settlement as [res|error]; cbn [pplServiceRequestor_settled].
  - destruct res; cbn; repeat split.
  - destruct (fetch_catch error) as [effects|e] eqn:E.
    + apply fetch_catch_shape in E as (m & d & b & _ & ->). repeat split.
    + repeat split.
Qed.

(** X16. When the request is rejected with a body whose message parses
    to an object with an [error] object, the message reported is the
    [reason] of that error if JavaScript takes it for true, and
    otherwise (no reason, [null], the empty string, 0, [false]) the text
    "Issue in fetching visualization"; the [details] are passed on as
    they are, the body is logged and loading is cleared. *)
Theorem X16_rejection_message (error : FetchError) (body : ErrorBody)
    (message : str) (fields error_fields : list (str * json)) :
  fe_body error = Some body ->
  eb_message body = Some message ->
  JSON_parse message = Ret (JObj fields) ->
  lookup_field (lit "error") fields = Some (JObj error_fields) ->
  let reason := lookup_field (lit "reason") error_fields in
  pplServiceRequestor_settled (FetchRejected error)
  = ([SetIsErrorReason
        (match reason with
         | Some v => if json_truthy reason then v
                     else JStr (lit "Issue in fetching visualization")
         | None => JStr (lit "Issue in fetching visualization")
         end)
        (lookup_field (lit "details") error_fields);
      ConsoleErrorBody body;
      Eff (SetIsLoading false)], None).
Proof.
  intros Hb Hm Hp He. cbv zeta.
  unfold pplServiceRequestor_settled, fetch_catch.
  rewrite Hb. cbn [bind]. rewrite Hm, Hp. cbn [bind get_member].
  rewrite He. cbn [bind get_member]. reflexivity.
Qed.

(** X17. A rejection that does not have that shape is not reported:
    when the [catch] callback itself throws, as it does with a
    TypeError for a rejection without body, and with the error of
    [JSON.parse] for a message that is not JSON, [setIsError] is not
    called; loading is cleared and the promise rejects. *)
Theorem X17_rejection_unreported (error : FetchError) (e : exn) :
  (snd (pplServiceRequestor_settled (FetchRejected error)) = Some e ->
   fst (pplServiceRequestor_settled (FetchRejected error))
   = [Eff (SetIsLoading false)])
  /\ (fe_body error = None ->
      pplServiceRequestor_settled (FetchRejected error)
      = ([Eff (SetIsLoading false)], Some TypeError))
  /\ (forall body,
        fe_body error = Some body ->
        JSON_parse (match eb_message body with
                    | Some m => m
                    | None => lit "undefined"
                    end) = Throw e ->
        pplServiceRequestor_settled (FetchRejected error)
        = ([Eff (SetIsLoading false)], Some e)).
Proof.
  unfold pplServiceRequestor_settled. split; [|split].
  - destruct (fetch_catch error); [discriminate|reflexivity].
  - intros H. unfold fetch_catch. now rewrite H.
  - intros body Hb Hp. unfold fetch_catch. rewrite Hb. cbn [bind].
    now rewrite Hp.
Qed.

(** X18. A whole run of [getQueryResponse], up to the moment its
    request has settled, sets loading once, at its start, and clears
    it once, at its end, whatever the arguments are and however the
    request settles; and it sends at most one request. *)
Theorem X18_loading_bracket
    (query type startTime endTime filterQuery timestampField : str)
    (settlement : fetch_settlement) :
  let run := getQueryResponse_run query type startTime endTime filterQuery
                                  timestampField settlement in
  hd (Eff (SetIsLoading false)) run = Eff (SetIsLoading true)
  /\ last run (Eff (SetIsLoading true)) = Eff (SetIsLoading false)
  /\ length (filter (sets_loading true) run) = 1
  /\ length (filter (sets_loading false) run) = 1
  /\ length (filter sends_request run) <= 1.
Proof.
  cbv zeta. unfold getQueryResponse_run, getQueryResponse.
  destruct (queryAccumulator query timestampField startTime endTime filterQuery)
    as [finalQuery|error].
  - destruct (request_settles settlement) as (Hlast & Hoff & Hon & Hreq).
    cbv zeta in *.
    set (effects := fst (pplServiceRequestor_settled settlement)) in *.
    assert (Hne : effects <> []).
    { intros H. rewrite H in Hoff. discriminate Hoff. }
    cbn [app map pplServiceRequestor hd].
    repeat split.
    + change (last ([Eff (SetIsLoading true); Eff (SetIsError {| errorMessage := None; errorDetails := None |}); Eff (PplFetch finalQuery (lit "jdbc"))] ++ effects) (Eff (SetIsLoading true)) = Eff (SetIsLoading false)).
      rewrite last_app_nonempty by assumption. exact Hlast.
    + cbn [filter sets_loading Bool.eqb]. rewrite Hon. reflexivity.
    + cbn [filter sets_loading Bool.eqb]. exact Hoff.
    + cbn [filter sends_request is_fetch]. rewrite Hreq. cbn. lia.
  - cbn. repeat split; lia.
Qed.

(** X19. [fetchVisualizationById] gives the empty object exactly when
    the request rejects or resolves to an empty list (reading the first
    object of an empty list throws, and the [catch] callback takes the
    TypeError for a failed request), and exactly then it calls
    [setIsError], with "Could not locate saved visualization id: " and
    the id. Otherwise it gives the first object of the list, whatever
    follows it, with its [objectId] as [id] and the name of its
    selected timestamp as [timeField]. *)
Theorem X19_fetch_by_id (savedVisualizationId : str) (settlement : get_settlement) :
  let result := fst (fetchVisualizationById savedVisualizationId settlement) in
  let effects := snd (fetchVisualizationById savedVisualizationId settlement) in
  (result = None
   <-> settlement = GetFulfilled [] \/ exists err, settlement = GetRejected err)
  /\ (result = None <-> existsb reports_error effects = true)
  /\ (result = None ->
      exists caught,
        effects
        = [Eff (SetIsError
             {| errorMessage :=
                  Some (lit "Could not locate saved visualization id: "
                          ++ savedVisualizationId);
                errorDetails := None |});
           ConsoleErrorCaught
             (lit "Issue in fetching the saved Visualization by Id") caught])
  /\ (forall first rest,
        settlement = GetFulfilled (first :: rest) ->
        result = Some {| fv_visualization := savedVisualization first;
                         fv_id := objectId first;
                         fv_timeField :=
                           sv_selected_timestamp_name (savedVisualization first) |}
        /\ effects = []).
Proof.
  cbv zeta. destruct settlement as [[|first rest]|err]; cbn;
    repeat split; try discriminate; eauto;
    try (intros [H|[e H]]; discriminate H);
    try (intros _; eexists; reflexivity); try congruence;
    try (intros first' rest' H; injection H as <- <-; reflexivity).
Qed.

End PanelFacts.

(** ** More on the span directive *)

Lemma prefixb_app (w s : str) : prefixb w (w ++ s) = true.
Proof.
  induction w as [|c w IH]; [reflexivity|]. cbn [app prefixb].
  now rewrite N.eqb_refl, IH.
Qed.

Lemma prefixb_short (w a b : str) :
  length w <= length a -> prefixb w (a ++ b) = prefixb w a.
Proof.
  revert a. induction w as [|c w IH]; intros a H; [reflexivity|].
  destruct a as [|d a]; cbn [length] in H; [lia|].
  cbn [app prefixb]. rewrite IH by lia. reflexivity.
Qed.

Lemma span_free_before_spec (q : str) (n : nat) :
  span_free_before q n = true
  <-> forall i, i < n -> prefixb (lit "span(") (skipn i q) = false.
Proof.
  unfold span_free_before. rewrite forallb_forall. split.
  - intros H i Hi. apply negb_true_iff. apply H. apply in_seq. lia.
  - intros H i Hi. apply in_seq in Hi. apply negb_true_iff. apply H. lia.
Qed.

Lemma directive_starts_with_span (tf d : str) :
  directive tf d -> exists rest, d = lit "span(" ++ rest.
Proof.
  intros (ws1 & ws2 & interval & -> & _). unfold directive_text. eauto.
Qed.

Lemma span_free_no_directive (tf q : str) (n : nat) :
  span_free_before q n = true -> no_directive_before tf q n.
Proof.
  intros H p d r Hq Hd.
  destruct (Nat.le_gt_cases n (length p)) as [|Hlt]; [assumption|exfalso].
  apply span_free_before_spec with (i := length p) in H; [|assumption].
  destruct (directive_starts_with_span Hd) as [rest ->].
  rewrite Hq, skipn_app, skipn_all, Nat.sub_diag in H.
  cbn [skipn] in H. change ([] ++ ?x) with x in H.
  rewrite <- !app_assoc in H. rewrite prefixb_app in H. discriminate H.
Qed.

Lemma span_free_extend (pre rest : str) :
  first_span_after pre = true ->
  span_free_before (pre ++ lit "span(" ++ rest) (length pre) = true.
Proof.
  unfold first_span_after. rewrite !span_free_before_spec. intros H i Hi.
  specialize (H i Hi). rewrite app_assoc, skipn_app.
  replace (i - length (pre ++ lit "span(")) with 0
    by (rewrite length_app; lia).
  cbn [skipn]. rewrite prefixb_short; [assumption|].
  rewrite length_skipn, length_app.
  change (length (lit "span(")) with 5. lia.
Qed.

Section SpanMore.
Import SpanFacts.

(** X20. For a field name made of characters that are neither pattern
    syntax nor whitespace, [updateQuerySpanInterval] returns a query
    for every query and every [spanParam], and what it returns starts
    as the query does, up to the first place at which the text [span(]
    begins. *)
Theorem X20_update_keeps_prefix (tf query sp : str) (n : nat) :
  plain_field tf ->
  span_free_before query n = true ->
  exists updated,
    updateQuerySpanInterval query tf sp = Some (Ret updated)
    /\ firstn n updated = firstn n query.
Proof.
  intros Hp Hfree.
  destruct (exec (span_regex tf) query) as [mr|] eqn:E.
  - destruct (@update_first_match tf query sp (span_regex tf) mr
                (@span_pattern_compiles tf Hp) E)
      as (pre & w & post & new & Hq & Hi & Hw & Hres).
    eexists. split; [exact Hres|].
    assert (Hd : directive tf w).
    { apply MatcherFacts.exec_split in E
        as (pre' & w' & post' & Hq' & Hm & _ & _ & _ & Hw' & _).
      rewrite Hw, Hw'. now apply span_regex_sound. }
    pose proof (@span_free_no_directive tf query n Hfree pre w post Hq Hd) as Hn.
    rewrite Hq. rewrite !firstn_app.
    replace (n - length pre) with 0 by lia. reflexivity.
  - exists query. split; [|reflexivity].
    now apply (@update_no_match tf query sp (span_regex tf)
                 (@span_pattern_compiles tf Hp)).
Qed.

Lemma update_first_span (tf sp pre ws1 ws2 old post : str) :
  plain_field tf ->
  no_dollar sp = true ->
  forallb is_whitespace ws1 = true ->
  forallb is_whitespace ws2 = true ->
  no_line_terminator old = true ->
  no_close_paren old = true ->
  first_span_after pre = true ->
  updateQuerySpanInterval (pre ++ directive_text tf ws1 ws2 old ++ post) tf sp
  = Some (Ret (pre ++ directive_text tf [] [] sp ++ post)).
Proof.
  intros Hp Hsp H1 H2 Hlt Hcp Hfirst.
  assert (Hno : no_directive_before tf
                  (pre ++ directive_text tf ws1 ws2 old ++ post) (length pre)).
  { apply span_free_no_directive. unfold directive_text.
    rewrite <- !app_assoc. apply span_free_extend. exact Hfirst. }
  destruct (@update_leftmost_directive tf sp pre ws1 ws2 old post
              Hp H1 H2 Hlt Hcp Hno) as (new & Hres & Hnew).
  rewrite Hres, (Hnew Hsp). reflexivity.
Qed.

(** X21. Of two updates in a row the last one wins: when the directive
    of the field is the first place of the query at which [span(]
    begins, updating the interval to [sp1] and then to [sp2] gives the
    query that updating to [sp2] at once gives; so updating twice to
    the same interval is the same as updating once. The first interval
    has no [$], no closing parenthesis and no line terminator, the
    second no [$]. *)
Theorem X21_update_last_wins (tf sp1 sp2 pre ws1 ws2 old post : str) :
  plain_field tf ->
  forallb is_whitespace ws1 = true ->
  forallb is_whitespace ws2 = true ->
  no_line_terminator old = true ->
  no_close_paren old = true ->
  first_span_after pre = true ->
  no_dollar sp1 = true ->
  no_line_terminator sp1 = true ->
  no_close_paren sp1 = true ->
  no_dollar sp2 = true ->
  exists once,
    updateQuerySpanInterval (pre ++ directive_text tf ws1 ws2 old ++ post) tf sp1
      = Some (Ret once)
    /\ updateQuerySpanInterval once tf sp2
       = updateQuerySpanInterval (pre ++ directive_text tf ws1 ws2 old ++ post)
                                 tf sp2
    /\ updateQuerySpanInterval once tf sp1 = Some (Ret once).
Proof.
  intros Hp H1 H2 Hlt Hcp Hfirst Hd1 Hl1 Hc1 Hd2.
  exists (pre ++ directive_text tf [] [] sp1 ++ post).
  rewrite !(@update_first_span tf _ pre ws1 ws2 old post) by assumption.
  rewrite !(@update_first_span tf _ pre [] [] sp1 post) by (assumption || reflexivity).
  repeat split.
Qed.

End SpanMore.

(** ** Rendering a panel *)

Lemma at_plain_field : plain_field (lit "@timestamp").
Proof. reflexivity. Qed.

Lemma prefixb_span_chars (s : str) :
  prefixb (lit "span(") s = true ->
  nth_error s 0 = Some (ch "s") /\ nth_error s 1 = Some (ch "p")
  /\ nth_error s 4 = Some (ch "(").
Proof.
  change (lit "span(") with [ch "s"; ch "p"; ch "a"; ch "n"; ch "("].
  destruct s as [|c0 [|c1 [|c2 [|c3 [|c4 s]]]]]; cbn [prefixb];
    rewrite ?andb_false_r; try discriminate.
  intros H. repeat (apply andb_true_iff in H as [? H]).
  repeat match goal with
         | E : (_ =? _)%N = true |- _ => apply N.eqb_eq in E; subst
         end.
  repeat split.
Qed.

Lemma catalog_first_span (catalogSource : str) :
  no_open_paren catalogSource = true ->
  first_span_after
    (lit "source = " ++ catalogSource ++ lit " | stats avg(@value) by ") = true.
Proof.
  intros Hx. unfold first_span_after. apply span_free_before_spec. intros i Hi.
  destruct (prefixb (lit "span(") _) eqn:E; [exfalso|reflexivity].
  apply prefixb_span_chars in E as (E0 & E1 & E4).
  rewrite nth_error_skipn in E0, E1, E4.
  rewrite <- !app_assoc in E0, E1, E4.
  rewrite !length_app in Hi.
  remember (lit " | stats avg(@value) by " ++ lit "span(") as T eqn:HT.
  remember (lit "source = ") as L eqn:HL.
  change (length (lit " | stats avg(@value) by ")) with 24 in Hi.
  assert (HlenL : length L = 9) by (subst L; reflexivity).
  rewrite HlenL in Hi.
  unfold no_open_paren in Hx. rewrite forallb_forall in Hx.
  destruct (Nat.lt_ge_cases i 9) as [Hlt|Hge].
  - (* inside [source = ] *)
    rewrite Nat.add_0_r in E0.
    rewrite nth_error_app1 in E0 by lia.
    destruct i as [|i].
    + rewrite nth_error_app1 in E1 by (rewrite HlenL; cbn; lia).
      subst L. discriminate E1.
    + subst L. do 8 (destruct i as [|i]; [discriminate E0|]). cbn in Hlt. lia.
  - destruct (Nat.lt_ge_cases i (9 + length catalogSource)) as [Hin|Hout].
    + (* inside the name of the source *)
      rewrite nth_error_app2 in E4 by lia. rewrite HlenL in E4.
      destruct (Nat.lt_ge_cases (i + 4 - 9) (length catalogSource)) as [Hx4|Hx4].
      * rewrite nth_error_app1 in E4 by assumption.
        apply nth_error_In in E4. apply Hx in E4. discriminate E4.
      * rewrite nth_error_app2 in E4 by assumption.
        remember (i + 4 - 9 - length catalogSource) as j eqn:Hj.
        assert (Hj4 : j < 4) by lia.
        subst T. do 4 (destruct j as [|j]; [discriminate E4|]). lia.
    + (* in the text before the directive *)
      rewrite nth_error_app2 in E0, E1 by lia. rewrite HlenL in E0, E1.
      rewrite nth_error_app2 in E0, E1 by lia.
      remember (i + 0 - 9 - length catalogSource) as j eqn:Hj.
      replace (i + 1 - 9 - length catalogSource) with (S j) in E1 by lia.
      assert (Hj24 : j < 24) by lia.
      subst T.
      do 24 (destruct j as [|j];
             [first [discriminate E0|discriminate E1]|]).
      lia.
Qed.

Section RenderFacts.
Import SpanFacts.

Context {lib : DateLib} {consts : SharedConstants} {platform : Platform}.

(** X22. A call of [renderSavedVisualization] whose promise is
    fulfilled never leaves the panel loading without a request under
    way: it starts by setting loading, and it ends either by clearing
    loading, having sent no request, or by sending its one request,
    whose settlement clears loading. It ends the first way, after
    reporting the error and without setting title, type or meta data,
    whenever the saved visualization is not found. *)
Theorem X22_render_never_hangs
    (savedVisualizationId startTime endTime filterQuery : str)
    (spanParam : option str) (settlement : get_settlement)
    (trace : list panel_effect) :
  renderSavedVisualization savedVisualizationId startTime endTime filterQuery
                           spanParam settlement = Some (trace, None) ->
  hd (Eff (SetIsLoading false)) trace = Eff (SetIsLoading true)
  /\ ((last trace (Eff (SetIsLoading true)) = Eff (SetIsLoading false)
       /\ filter sends_request trace = []
       /\ existsb reports_error trace = true)
      \/ (exists finalQuery,
            last trace (Eff (SetIsLoading true))
              = Eff (PplFetch finalQuery (lit "jdbc"))
            /\ filter sends_request trace = [Eff (PplFetch finalQuery (lit "jdbc"))]
            /\ filter (sets_loading false) trace = []
            /\ existsb reports_error trace = false))
  /\ (fst (fetchVisualizationById savedVisualizationId settlement) = None ->
      last trace (Eff (SetIsLoading true)) = Eff (SetIsLoading false)
      /\ filter sets_meta_data trace = []
      /\ length trace = 5).
Proof.
  unfold renderSavedVisualization.
  destruct settlement as [[|first rest]|err];
    cbn [fetchVisualizationById element nth_error fv_visualization fv_timeField].
  - intros H. injection H as <-. split; [reflexivity|].
    split; [left|]; repeat split.
  - set (stored := savedVisualization first).
    assert (Hrun : forall query,
      let trace :=
        [Eff (SetIsLoading true);
         Eff (SetIsError {| errorMessage := None; errorDetails := None |})]
        ++ [] ++ (if truthy (sv_name stored)
                  then [SetVisualizationTitle (sv_name stored)] else [])
        ++ (if truthy (sv_type stored)
            then [SetVisualizationType (sv_type stored)] else [])
        ++ [SetVisualizationMetaData
              (MetaSaved {| fv_visualization := stored;
                            fv_id := objectId first;
                            fv_timeField := sv_selected_timestamp_name stored |}
                         query)]
        ++ map Eff (getQueryResponse query (sv_type stored) startTime endTime
                      filterQuery (sv_selected_timestamp_name stored)) in
      hd (Eff (SetIsLoading false)) trace = Eff (SetIsLoading true)
      /\ ((last trace (Eff (SetIsLoading true)) = Eff (SetIsLoading false)
           /\ filter sends_request trace = []
           /\ existsb reports_error trace = true)
          \/ (exists finalQuery,
                last trace (Eff (SetIsLoading true))
                  = Eff (PplFetch finalQuery (lit "jdbc"))
                /\ filter sends_request trace
                   = [Eff (PplFetch finalQuery (lit "jdbc"))]
                /\ filter (sets_loading false) trace = []
                /\ existsb reports_error trace = false))).
    { intros query. cbv zeta. unfold getQueryResponse.
      destruct (queryAccumulator query (sv_selected_timestamp_name stored)
                  startTime endTime filterQuery) as [finalQuery|error];
        destruct (truthy (sv_name stored)); destruct (truthy (sv_type stored));
        (split; [reflexivity|]);
        first [left; repeat split; fail
              |right; exists finalQuery; repeat split]. }
    destruct spanParam as [sp|].
    + destruct (updateQuerySpanInterval (sv_query stored)
                  (sv_selected_timestamp_name stored) sp) as [[updated|e]|];
        try discriminate.
      intros H. injection H as <-.
      destruct (Hrun updated) as [Hhd Hlast].
      split; [exact Hhd|]. split; [exact Hlast|]. discriminate.
    + intros H. injection H as <-.
      destruct (Hrun (sv_query stored)) as [Hhd Hlast].
      split; [exact Hhd|]. split; [exact Hlast|]. discriminate.
  - intros H. injection H as <-. split; [reflexivity|].
    split; [left|]; repeat split.
Qed.

(** X23. When the name of the time field of the saved visualization is
    not a well-formed pattern, and an interval is given,
    [renderSavedVisualization] rejects with the SyntaxError of
    [updateQuerySpanInterval]: by then loading has been set and title
    and type may have been set, and nothing clears loading, sets the
    meta data, reports an error or sends a request. Without an interval
    the same visualization is rendered. *)
Theorem X23_render_ill_formed_field
    (savedVisualizationId startTime endTime filterQuery spanParam : str)
    (first : ObservabilitySavedVisualization)
    (rest : list ObservabilitySavedVisualization) :
  RegExp_new
    (span_pattern (sv_selected_timestamp_name (savedVisualization first)))
    = IllFormed ->
  (exists trace,
     renderSavedVisualization savedVisualizationId startTime endTime filterQuery
                              (Some spanParam) (GetFulfilled (first :: rest))
     = Some (trace, Some SyntaxError)
     /\ filter (sets_loading true) trace = [Eff (SetIsLoading true)]
     /\ filter (sets_loading false) trace = []
     /\ filter sets_meta_data trace = []
     /\ existsb reports_error trace = false
     /\ filter sends_request trace = [])
  /\ (exists trace,
        renderSavedVisualization savedVisualizationId startTime endTime filterQuery
                                 None (GetFulfilled (first :: rest))
        = Some (trace, None)).
Proof.
  intros Hill. split.
  - unfold renderSavedVisualization, updateQuerySpanInterval.
    cbn [fetchVisualizationById element nth_error fv_visualization fv_timeField].
    rewrite Hill. eexists. split; [reflexivity|].
    destruct (truthy (sv_name (savedVisualization first)));
      destruct (truthy (sv_type (savedVisualization first))); repeat split.
  - eexists. reflexivity.
Qed.

(** X24. For a saved visualization whose time field is made of
    characters that are neither pattern syntax nor whitespace,
    [renderSavedVisualization] with an interval never rejects: it sets
    the title and the type if they are not empty, then hands one and
    the same updated query to [setVisualizationMetaData] and to
    [getQueryResponse], together with the type and the time field of
    the visualization. *)
Theorem X24_render_saved
    (savedVisualizationId startTime endTime filterQuery spanParam : str)
    (first : ObservabilitySavedVisualization)
    (rest : list ObservabilitySavedVisualization) :
  let stored := savedVisualization first in
  let timeField := sv_selected_timestamp_name stored in
  plain_field timeField ->
  exists updated,
    updateQuerySpanInterval (sv_query stored) timeField spanParam
      = Some (Ret updated)
    /\ renderSavedVisualization savedVisualizationId startTime endTime filterQuery
                                (Some spanParam) (GetFulfilled (first :: rest))
       = Some ([Eff (SetIsLoading true);
                Eff (SetIsError {| errorMessage := None; errorDetails := None |})]
               ++ (if truthy (sv_name stored)
                   then [SetVisualizationTitle (sv_name stored)] else [])
               ++ (if truthy (sv_type stored)
                   then [SetVisualizationType (sv_type stored)] else [])
               ++ [SetVisualizationMetaData
                     (MetaSaved {| fv_visualization := stored;
                                   fv_id := objectId first;
                                   fv_timeField := timeField |} updated)]
               ++ map Eff (getQueryResponse updated (sv_type stored) startTime
                             endTime filterQuery timeField),
               None).
Proof.
  cbv zeta. intros Hp.
  unfold renderSavedVisualization, updateQuerySpanInterval.
  cbn [fetchVisualizationById element nth_error fv_visualization fv_timeField].
  rewrite (@span_pattern_compiles _ Hp).
  eexists. split; reflexivity.
Qed.

(** X25. [renderCatalogVisualization] never rejects, whatever the name
    of the catalog source and the interval are: it sets the title to
    the name of the source and the type to [line], and hands the meta
    data and [getQueryResponse] one and the same query, with the time
    field [@timestamp]; without an interval that query is
    [source = <name> | stats avg(@value) by span(@timestamp,1h)]. *)
Theorem X25_render_catalog
    (catalogSource startTime endTime filterQuery : str) (spanParam : option str) :
  exists query,
    renderCatalogVisualization catalogSource startTime endTime filterQuery spanParam
    = Some ([Eff (SetIsLoading true);
             Eff (SetIsError {| errorMessage := None; errorDetails := None |});
             SetVisualizationTitle catalogSource;
             SetVisualizationType (lit "line");
             SetVisualizationMetaData
               (MetaCatalog
                  (createCatalogVisualizationMetaData catalogSource query
                     (lit "line") (lit "@timestamp")) query)]
            ++ map Eff (getQueryResponse query (lit "line") startTime endTime
                          filterQuery (lit "@timestamp")),
            None)
    /\ (spanParam = None ->
        query = lit "source = " ++ catalogSource
                  ++ lit " | stats avg(@value) by span(@timestamp,1h)").
Proof.
  unfold renderCatalogVisualization, updateQuerySpanInterval.
  destruct spanParam as [sp|].
  - rewrite (@span_pattern_compiles _ at_plain_field).
    eexists. split; [reflexivity|discriminate].
  - eexists. split; [reflexivity|]. intros _. unfold catalog_query.
    do 2 f_equal.
Qed.

(** X26. With an interval that has no [$], and a source whose name has
    no opening parenthesis, the query [renderCatalogVisualization]
    hands on is
    [source = <name> | stats avg(@value) by span(@timestamp,<interval>)]. *)
Theorem X26_catalog_query
    (catalogSource startTime endTime filterQuery spanParam : str) :
  no_open_paren catalogSource = true ->
  no_dollar spanParam = true ->
  let query := lit "source = " ++ catalogSource
                 ++ lit " | stats avg(@value) by span(@timestamp,"
                 ++ spanParam ++ lit ")" in
  updateQuerySpanInterval (catalog_query catalogSource) (lit "@timestamp") spanParam
    = Some (Ret query)
  /\ renderCatalogVisualization catalogSource startTime endTime filterQuery
                                (Some spanParam)
     = Some ([Eff (SetIsLoading true);
              Eff (SetIsError {| errorMessage := None; errorDetails := None |});
              SetVisualizationTitle catalogSource;
              SetVisualizationType (lit "line");
              SetVisualizationMetaData
                (MetaCatalog
                   (createCatalogVisualizationMetaData catalogSource query
                      (lit "line") (lit "@timestamp")) query)]
             ++ map Eff (getQueryResponse query (lit "line") startTime endTime
                           filterQuery (lit "@timestamp")),
             None).
Proof.
  intros Hx Hsp. cbv zeta.
  assert (Hupd : updateQuerySpanInterval (catalog_query catalogSource)
                   (lit "@timestamp") spanParam
                 = Some (Ret (lit "source = " ++ catalogSource
                    ++ lit " | stats avg(@value) by span(@timestamp,"
                    ++ spanParam ++ lit ")"))).
  { pose proof (@update_first_span (lit "@timestamp") spanParam
                  (lit "source = " ++ catalogSource
                     ++ lit " | stats avg(@value) by ")
                  [] [] (lit "1h") []
                  at_plain_field Hsp eq_refl eq_refl eq_refl eq_refl
                  (catalog_first_span _ Hx)) as H.
    unfold directive_text in H. rewrite !app_nil_r in H.
    unfold catalog_query.
    change (lit " | stats avg(@value) by span(@timestamp,")
      with (lit " | stats avg(@value) by "
              ++ lit "span(" ++ [] ++ lit "@timestamp" ++ [] ++ lit ",").
    change (lit " | stats avg(@value) by span(" ++ lit "@timestamp" ++ lit ",1h)")
      with (lit " | stats avg(@value) by "
              ++ lit "span(" ++ [] ++ lit "@timestamp" ++ [] ++ lit ","
              ++ lit "1h" ++ lit ")").
    rewrite <- !app_assoc in H. rewrite <- ?app_assoc.
    exact H. }
  split; [exact Hupd|].
  unfold renderCatalogVisualization. rewrite Hupd. reflexivity.
Qed.

(** X27. [parseSavedVisualizations] throws exactly when the saved
    object has a non-empty [user_configs] that [JSON.parse] rejects,
    and with that error. When it returns, its [id], [name], [query],
    [type] and [timeField] are the ones [fetchVisualizationById] gives
    for the same object, the user configs are the empty object if the
    saved object has none, and an empty [application_id] is left
    out. *)
Theorem X27_parse_saved (visualization : ObservabilitySavedVisualization)
    (savedVisualizationId : str) (rest : list ObservabilitySavedVisualization) :
  let stored := savedVisualization visualization in
  (forall e,
     parseSavedVisualizations visualization = Throw e
     <-> exists text,
           sv_user_configs stored = Some text /\ text <> []
           /\ JSON_parse text = Throw e)
  /\ (forall parsed,
        parseSavedVisualizations visualization = Ret parsed ->
        exists fetched,
          fst (fetchVisualizationById savedVisualizationId
                 (GetFulfilled (visualization :: rest))) = Some fetched
          /\ svt_id parsed = fv_id fetched
          /\ svt_timeField parsed = fv_timeField fetched
          /\ svt_name parsed = sv_name (fv_visualization fetched)
          /\ svt_query parsed = sv_query (fv_visualization fetched)
          /\ svt_type parsed = sv_type (fv_visualization fetched)
          /\ (sv_user_configs stored = None \/ sv_user_configs stored = Some [] ->
              svt_user_configs parsed = JObj [])
          /\ (svt_application_id parsed = None
              <-> sv_application_id stored = None
                  \/ sv_application_id stored = Some [])).
Proof.
  cbv zeta. unfold parseSavedVisualizations. split.
  - intros e. destruct (sv_user_configs (savedVisualization visualization))
      as [text|] eqn:Hc.
    + destruct (truthy text) eqn:Ht.
      * assert (Hne : text <> []).
        { intros ->. discriminate Ht. }
        destruct (JSON_parse text) as [v|e'] eqn:Hp; cbn [bind].
        -- split; [discriminate|]. intros (t & Ht' & _ & Hp').
           injection Ht' as <-. congruence.
        -- split.
           ++ intros H. injection H as <-. eauto.
           ++ intros (t & Ht' & _ & Hp'). injection Ht' as <-. congruence.
      * cbn [bind]. split; [discriminate|].
        intros (t & Ht' & Hne & _). injection Ht' as <-.
        unfold truthy in Ht. apply negb_false_iff in Ht.
        apply str_eqb_nil in Ht. contradiction.
    + cbn [bind]. split; [discriminate|]. intros (t & Ht' & _). discriminate Ht'.
  - intros parsed H. eexists. split; [reflexivity|].
    cbn [fv_id fv_timeField fv_visualization].
    destruct (sv_user_configs (savedVisualization visualization)) as [text|] eqn:Hc.
    + destruct (truthy text) eqn:Ht.
      * destruct (JSON_parse text) as [v|e'] eqn:Hp; cbn [bind] in H;
          [|discriminate H]. injection H as <-. cbn.
        repeat split; try reflexivity.
        -- intros [Hn|Hn]; [discriminate Hn|]. injection Hn as ->. discriminate Ht.
        -- destruct (sv_application_id (savedVisualization visualization))
             as [a|]; cbn; [|auto].
           destruct (truthy a) eqn:Ha; [discriminate|].
           intros _. right. unfold truthy in Ha. apply negb_false_iff in Ha.
           apply str_eqb_nil in Ha. now subst.
        -- destruct (sv_application_id (savedVisualization visualization))
             as [a|]; cbn; [|auto].
           intros [Hn|Hn]; [discriminate Hn|]. injection Hn as ->. reflexivity.
      * cbn [bind] in H. injection H as <-. cbn.
        repeat split; try reflexivity.
        -- destruct (sv_application_id (savedVisualization visualization))
             as [a|]; cbn; [|auto].
           destruct (truthy a) eqn:Ha; [discriminate|].
           intros _. right. unfold truthy in Ha. apply negb_false_iff in Ha.
           apply str_eqb_nil in Ha. now subst.
        -- destruct (sv_application_id (savedVisualization visualization))
             as [a|]; cbn; [|auto].
           intros [Hn|Hn]; [discriminate Hn|]. injection Hn as ->. reflexivity.
    + cbn [bind] in H. injection H as <-. cbn.
      repeat split; try reflexivity.
      * destruct (sv_application_id (savedVisualization visualization))
          as [a|]; cbn; [|auto].
        destruct (truthy a) eqn:Ha; [discriminate|].
        intros _. right. unfold truthy in Ha. apply negb_false_iff in Ha.
        apply str_eqb_nil in Ha. now subst.
      * destruct (sv_application_id (savedVisualization visualization))
          as [a|]; cbn; [|auto].
        intros [Hn|Hn]; [discriminate Hn|]. injection Hn as ->. reflexivity.
Qed.

End RenderFacts.

(** ** More on the merge of layout and visualizations *)

Section MergeMore.
Variable VizRest LayoutRest : Type.
Local Abbreviation Viz := (VisualizationType VizRest).
Local Abbreviation Lay := (Layout LayoutRest).

Lemma filter_absent (id : str) (layout : list Lay) :
  ~ In id (map (@lay_i _) layout) ->
  filter (fun l => str_eqb id (lay_i l)) layout = [].
Proof.
  induction layout as [|l layout IH]; [reflexivity|]. cbn [map filter In].
  intros H. destruct (str_eqb id (lay_i l)) eqn:E.
  - apply str_eqb_eq in E. exfalso. apply H. now left.
  - apply IH. intros Hin. apply H. now right.
Qed.

Lemma filter_unique (l : Lay) (layout : list Lay) :
  NoDup (map (@lay_i _) layout) -> In l layout ->
  filter (fun l' => str_eqb (lay_i l) (lay_i l')) layout = [l].
Proof.
  induction layout as [|l0 layout IH]; [intros _ []|].
  cbn [map filter In]. intros Hnd Hin.
  inversion Hnd as [|? ? Hnot Hnd']; subst.
  destruct Hin as [->|Hin].
  - rewrite str_eqb_refl. f_equal. now apply filter_absent.
  - destruct (str_eqb (lay_i l) (lay_i l0)) eqn:E.
    + apply str_eqb_eq in E. exfalso. apply Hnot. rewrite <- E.
      now apply in_map.
    + now apply IH.
Qed.

Lemma matching_unique (layout : list Lay) (v : Viz) :
  NoDup (map (@lay_i _) layout) ->
  In (viz_id v) (map (@lay_i _) layout) ->
  exists l, In l layout /\ lay_i l = viz_id v
            /\ filter (fun l' => str_eqb (viz_id v) (lay_i l')) layout = [l].
Proof.
  intros Hnd Hin. apply in_map_iff in Hin as (l & Hl & Hin).
  exists l. repeat split; auto. rewrite <- Hl. exact (@filter_unique l layout Hnd Hin).
Qed.

(** X28. When no two layout items have the same id and every
    visualization has a layout item, the merge changes positions and
    sizes only: it hands on as many entries as there are
    visualizations, with the same ids and the same other fields, in
    the same order, each with [x], [y], [w] and [h] of the layout item
    of its id. *)
Theorem X28_merge_repositions (layout : list Lay) (vs : list Viz) :
  NoDup (map (@lay_i _) layout) ->
  (forall v, In v vs -> In (viz_id v) (map (@lay_i _) layout)) ->
  exists out,
    mergeLayoutAndVisualizations layout vs = Ret out
    /\ map (@viz_id _) out = map (@viz_id _) vs
    /\ map (@viz_rest _) out = map (@viz_rest _) vs
    /\ (forall e, In e out ->
          exists l, In l layout /\ lay_i l = viz_id e
                    /\ viz_x e = lay_x l /\ viz_y e = lay_y l
                    /\ viz_w e = lay_w l /\ viz_h e = lay_h l).
Proof.
  intros Hnd Hall. exists (matching_pairs layout vs).
  split; [apply merge_is_matching_pairs|].
  unfold matching_pairs.
  induction vs as [|v vs IH]; [repeat split; intros e []|].
  destruct IH as (Hid & Hrest & Hpos).
  { intros v' Hv'. apply Hall. now right. }
  destruct (@matching_unique layout v Hnd (Hall v (or_introl eq_refl)))
    as (l & Hl & Hlid & Hf).
  cbn [flat_map]. rewrite Hf. cbn [map app]. repeat split.
  - now rewrite Hid.
  - now rewrite Hrest.
  - intros e [<-|He]; [|now apply Hpos].
    exists l. repeat split; auto.
Qed.

(** X29. When no two layout items have the same id, merging the same
    layout into the result of a merge gives that result again. *)
Theorem X29_merge_idempotent (layout : list Lay) (vs out : list Viz) :
  NoDup (map (@lay_i _) layout) ->
  mergeLayoutAndVisualizations layout vs = Ret out ->
  mergeLayoutAndVisualizations layout out = Ret out.
Proof.
  intros Hnd H. rewrite merge_is_matching_pairs in H. injection H as <-.
  rewrite merge_is_matching_pairs. f_equal.
  unfold matching_pairs. induction vs as [|v vs IH]; [reflexivity|].
  cbn [flat_map]. rewrite flat_map_app, IH. f_equal.
  clear IH.
  assert (Hsub : forall ls,
             (forall l, In l ls -> In l layout /\ lay_i l = viz_id v) ->
             flat_map
               (fun v0 =>
                  map (with_layout v0)
                      (filter (fun l => str_eqb (viz_id v0) (lay_i l)) layout))
               (map (with_layout v) ls)
             = map (with_layout v) ls).
  { induction ls as [|l ls IHl]; intros Hls; [reflexivity|].
    cbn [map flat_map]. rewrite IHl by (intros l' Hl'; apply Hls; now right).
    destruct (Hls l (or_introl eq_refl)) as [Hin Hid].
    cbn [with_layout viz_id]. rewrite <- Hid.
    rewrite (@filter_unique l layout Hnd Hin). reflexivity. }
  apply Hsub. intros l Hl. apply filter_In in Hl as [Hin Hid].
  apply str_eqb_eq in Hid. auto.
Qed.

End MergeMore.

(** ** A source pattern anchored at the start *)

Lemma search_anchored (r : regex) (bef rst : list char) :
  bef <> [] -> search (Seq Bol r) bef rst = None.
Proof.
  revert bef. induction rst as [|c rst IH]; intros bef Hne; cbn [search matcher].
  - cbn [before]. destruct bef; [contradiction|reflexivity].
  - cbn [before]. destruct bef as [|b bef]; [contradiction|].
    apply IH. discriminate.
Qed.

Lemma exec_anchored (r : regex) (s : str) (mr : match_result) :
  exec (Seq Bol r) s = Some mr -> m_index mr = 0.
Proof.
  unfold exec. destruct s as [|c s]; cbn [search].
  - destruct (matcher (Seq Bol r) (MState [] [] []) Some); [|discriminate].
    intros H. injection H as <-. reflexivity.
  - destruct (matcher (Seq Bol r) (MState [] (c :: s) []) Some).
    + intros H. injection H as <-. reflexivity.
    + rewrite search_anchored by discriminate. discriminate.
Qed.

Section AnchoredSource.

Context {lib : DateLib} {consts : SharedConstants}.

(** X30. When the source pattern is anchored at the start of the
    query, as the one the spec describes is, the final query is the
    original query with the time filter and the panel filter put in
    right after the source clause: the text the pattern matches starts
    the query, the final query is that text, then
    [ | where <field> >= '<start>' and <field> <= '<end>'], then
    [ | ] and the panel filter if it is not empty, then all that
    follows the matched text in the query. *)
Theorem X30_filters_after_source
    (originalQuery timestampField startTime endTime panelFilterQuery out : str)
    (r : regex) :
  PPL_INDEX_REGEX = Seq Bol r ->
  queryAccumulator originalQuery timestampField startTime endTime panelFilterQuery
    = Ret out ->
  exists mr ms me,
    exec PPL_INDEX_REGEX originalQuery = Some mr
    /\ m_index mr = 0
    /\ dateMath_parse startTime false = Some ms
    /\ dateMath_parse endTime true = Some me
    /\ originalQuery
       = firstn (m_end mr) originalQuery ++ skipn (m_end mr) originalQuery
    /\ out = firstn (m_end mr) originalQuery
               ++ (lit " | where " ++ timestampField ++ lit " >= '"
                     ++ moment_format (moment_utc ms) PPL_DATE_FORMAT
                     ++ lit "' and " ++ timestampField ++ lit " <= '"
                     ++ moment_format (moment_utc me) PPL_DATE_FORMAT
                     ++ lit "'")
               ++ (if str_eqb panelFilterQuery [] then []
                   else lit " | " ++ panelFilterQuery)
               ++ skipn (m_end mr) originalQuery.
Proof.
  intros Hanch H.
  destruct (exec PPL_INDEX_REGEX originalQuery) as [mr|] eqn:E;
    [|unfold queryAccumulator, str_match in H; rewrite E in H; discriminate H].
  destruct (dateMath_parse startTime false) as [ms|] eqn:Hs;
    [|unfold queryAccumulator, str_match in H;
      rewrite E, !convertDateTime_formatted in H; cbn [negb] in H;
      rewrite Hs in H; discriminate H].
  destruct (dateMath_parse endTime true) as [me|] eqn:He;
    [|unfold queryAccumulator, str_match in H;
      rewrite E, !convertDateTime_formatted in H; cbn [negb] in H;
      rewrite Hs, He in H; discriminate H].
  pose proof E as E0. rewrite Hanch in E0. apply exec_anchored in E0.
  exists mr, ms, me.
  split; [reflexivity|]. split; [exact E0|].
  split; [reflexivity|]. split; [reflexivity|].
  split; [symmetry; apply firstn_skipn|].
  assert (Hout :
    queryAccumulator originalQuery timestampField startTime endTime
                     panelFilterQuery
    = Ret (firstn (m_end mr) originalQuery
             ++ (lit " | where " ++ timestampField ++ lit " >= '"
                   ++ moment_format (moment_utc ms) PPL_DATE_FORMAT
                   ++ lit "' and " ++ timestampField ++ lit " <= '"
                   ++ moment_format (moment_utc me) PPL_DATE_FORMAT
                   ++ lit "'")
             ++ (if str_eqb panelFilterQuery [] then []
                 else lit " | " ++ panelFilterQuery)
             ++ skipn (m_end mr) originalQuery)).
  { unfold queryAccumulator, str_match, replace.
    rewrite E, !convertDateTime_formatted. cbn [negb].
    rewrite Hs, He. cbn [bind ma_0].
    unfold matched, substring. rewrite E0, Nat.sub_0_r.
    change (skipn 0 originalQuery) with originalQuery.
    change (firstn 0 originalQuery) with (@nil char).
    unfold timeQueryFilter, pplFilterQuery.
    cbn [datetime_to_string get_substitution].
    rewrite !app_nil_l, <- !app_assoc. reflexivity. }
  rewrite Hout in H. injection H as <-. reflexivity.
Qed.

End AnchoredSource.

(** ** The statements at work *)

Lemma X6_toast_round_trip_witness :
  dismissToast
    (setToast [sample_toast (lit "2024-01-01T00:00:00.000Z")]
              (lit "2024-01-01T00:00:06.000Z") (lit "Deleted") None None None)
    (sample_toast (lit "2024-01-01T00:00:06.000Z"))
  = [sample_toast (lit "2024-01-01T00:00:00.000Z")].
Proof.
  apply (proj2 (@X6_toast_round_trip sample_platform
                  [sample_toast (lit "2024-01-01T00:00:00.000Z")]
                  (lit "2024-01-01T00:00:06.000Z") (lit "Deleted") None None None
                  (sample_toast (lit "2024-01-01T00:00:06.000Z")) eq_refl)).
  intros t [<-|[]]. discriminate.
Defined.

Lemma X8_first_empty_tab_witness :
  getExistingEmptyTab [lit "tab-1"; lit "tab-2"; lit "tab-3"]
                      sample_queries sample_explorerData
  = Ret (lit "tab-2").
Proof.
  apply (@X8_first_empty_tab sample_platform sample_queries sample_explorerData
           [lit "tab-1"] [lit "tab-3"] (lit "tab-2")).
  - constructor; [reflexivity|constructor].
  - reflexivity.
Defined.

Lemma X9_no_empty_tab_witness :
  getExistingEmptyTab [lit "tab-1"] sample_queries sample_explorerData = Ret []
  /\ getExistingEmptyTab [lit "tab-1"; lit "tab-3"; lit "tab-2"]
                         sample_queries sample_explorerData
     = Throw TypeError.
Proof.
  destruct (@X9_no_empty_tab sample_platform sample_queries sample_explorerData
              [lit "tab-1"] [lit "tab-2"] (lit "tab-3")) as [Hnone Hthrow].
  - constructor; [reflexivity|constructor].
  - split; [exact Hnone|]. apply Hthrow. reflexivity.
Defined.

Lemma X16_rejection_message_witness :
  pplServiceRequestor_settled (platform := sample_platform)
    (FetchRejected {| fe_body := Some {| eb_message := Some (lit "no such index") |} |})
  = ([SetIsErrorReason (JStr (lit "no such index")) (Some (JStr (lit "no such index")));
      ConsoleErrorBody {| eb_message := Some (lit "no such index") |};
      Eff (SetIsLoading false)], None).
Proof.
  exact (@X16_rejection_message sample_platform
           {| fe_body := Some {| eb_message := Some (lit "no such index") |} |}
           {| eb_message := Some (lit "no such index") |}
           (lit "no such index")
           [(lit "error",
             JObj [(lit "reason", JStr (lit "no such index"));
                   (lit "details", JStr (lit "no such index"))])]
           [(lit "reason", JStr (lit "no such index"));
            (lit "details", JStr (lit "no such index"))]
           eq_refl eq_refl eq_refl eq_refl).
Defined.

Lemma X20_update_keeps_prefix_witness :
  exists updated,
    updateQuerySpanInterval
      (lit "source=a | stats avg(x) by span(timestamp,1d)")
      (lit "timestamp") (lit "1M") = Some (Ret updated)
    /\ firstn 27 updated
       = firstn 27 (lit "source=a | stats avg(x) by span(timestamp,1d)").
Proof.
  apply (@X20_update_keeps_prefix (lit "timestamp")
           (lit "source=a | stats avg(x) by span(timestamp,1d)") (lit "1M") 27);
    reflexivity.
Defined.

Lemma X21_update_last_wins_witness :
  exists once,
    updateQuerySpanInterval
      (lit "source=a | stats avg(x) by "
         ++ directive_text (lit "timestamp") [] (lit " ") (lit "1d")
         ++ lit " | head 5")
      (lit "timestamp") (lit "1M") = Some (Ret once)
    /\ updateQuerySpanInterval once (lit "timestamp") (lit "1w")
       = updateQuerySpanInterval
           (lit "source=a | stats avg(x) by "
              ++ directive_text (lit "timestamp") [] (lit " ") (lit "1d")
              ++ lit " | head 5")
           (lit "timestamp") (lit "1w")
    /\ updateQuerySpanInterval once (lit "timestamp") (lit "1M") = Some (Ret once).
Proof.
  apply (@X21_update_last_wins (lit "timestamp") (lit "1M") (lit "1w")
           (lit "source=a | stats avg(x) by ") [] (lit " ") (lit "1d")
           (lit " | head 5")); reflexivity.
Defined.

Lemma X22_render_never_hangs_witness :
  exists trace,
    renderSavedVisualization (lib := sample_lib) (consts := sample_constants)
      (platform := sample_platform)
      (lit "viz-1") (lit "now") (lit "now") [] (Some (lit "1M"))
      (@GetRejected sample_platform (lit "404")) = Some (trace, None)
    /\ last trace (Eff (SetIsLoading true)) = Eff (SetIsLoading false)
    /\ filter sets_meta_data trace = []
    /\ length trace = 5.
Proof.
  eexists. split; [reflexivity|].
  apply (@X22_render_never_hangs sample_lib sample_constants sample_platform
           (lit "viz-1") (lit "now") (lit "now") [] (Some (lit "1M"))
           (@GetRejected sample_platform (lit "404")) _ eq_refl).
  reflexivity.
Defined.

Lemma X23_render_ill_formed_field_witness :
  (exists trace,
     renderSavedVisualization (lib := sample_lib) (consts := sample_constants)
       (lit "viz-1") (lit "now") (lit "now") [] (Some (lit "1M"))
       (GetFulfilled [sample_saved (lit "(")])
     = Some (trace, Some SyntaxError)
     /\ filter (sets_loading true) trace = [Eff (SetIsLoading true)]
     /\ filter (sets_loading false) trace = []
     /\ filter sets_meta_data trace = []
     /\ existsb reports_error trace = false
     /\ filter sends_request trace = [])
  /\ (exists trace,
        renderSavedVisualization (lib := sample_lib) (consts := sample_constants)
          (lit "viz-1") (lit "now") (lit "now") [] None
          (GetFulfilled [sample_saved (lit "(")])
        = Some (trace, None)).
Proof.
  apply (@X23_render_ill_formed_field sample_lib sample_constants sample_platform
           (lit "viz-1") (lit "now") (lit "now") [] (lit "1M")
           (sample_saved (lit "(")) []).
  reflexivity.
Defined.

Lemma X24_render_saved_witness :
  exists updated,
    updateQuerySpanInterval
      (lit "source = logs | stats avg(bytes) by span(timestamp,1d)")
      (lit "timestamp") (lit "1M") = Some (Ret updated)
    /\ renderSavedVisualization (lib := sample_lib) (consts := sample_constants)
         (lit "viz-1") (lit "now") (lit "now") [] (Some (lit "1M"))
         (GetFulfilled [sample_saved (lit "timestamp")])
       = Some ([Eff (SetIsLoading true);
                Eff (SetIsError {| errorMessage := None; errorDetails := None |});
                SetVisualizationTitle (lit "Average bytes");
                SetVisualizationType (lit "line");
                SetVisualizationMetaData
                  (MetaSaved {| fv_visualization := sample_stored (lit "timestamp");
                                fv_id := lit "viz-1";
                                fv_timeField := lit "timestamp" |} updated)]
               ++ map Eff (getQueryResponse (lib := sample_lib)
                             (consts := sample_constants) updated (lit "line")
                             (lit "now") (lit "now") [] (lit "timestamp")),
               None).
Proof.
  apply (@X24_render_saved sample_lib sample_constants sample_platform
           (lit "viz-1") (lit "now") (lit "now") [] (lit "1M")
           (sample_saved (lit "timestamp")) []).
  reflexivity.
Defined.

Lemma X26_catalog_query_witness :
  updateQuerySpanInterval (catalog_query (lit "my_prometheus.up")) (lit "@timestamp")
                          (lit "5m")
  = Some (Ret (lit "source = " ++ lit "my_prometheus.up"
                 ++ lit " | stats avg(@value) by span(@timestamp,"
                 ++ lit "5m" ++ lit ")")).
Proof.
  apply (proj1 (@X26_catalog_query sample_lib sample_constants sample_platform
                  (lit "my_prometheus.up") (lit "now") (lit "now") [] (lit "5m")
                  eq_refl eq_refl)).
Defined.

Lemma X28_merge_repositions_witness :
  exists out,
    mergeLayoutAndVisualizations sample_layout sample_visualizations = Ret out
    /\ map (@viz_id unit) out = [lit "a"; lit "b"]
    /\ map (@viz_rest unit) out = [tt; tt]
    /\ (forall e, In e out ->
          exists l, In l sample_layout /\ lay_i l = viz_id e
                    /\ viz_x e = lay_x l /\ viz_y e = lay_y l
                    /\ viz_w e = lay_w l /\ viz_h e = lay_h l).
Proof.
  apply (@X28_merge_repositions unit unit sample_layout sample_visualizations).
  - constructor; [intros [H|[]]; discriminate H|].
    constructor; [intros []|constructor].
  - intros v [<-|[<-|[]]]; [right; left; reflexivity|left; reflexivity].
Defined.

Lemma X29_merge_idempotent_witness :
  mergeLayoutAndVisualizations sample_layout
    [with_layout (sample_visualization (lit "a")) (sample_layout_item (lit "a") 6);
     with_layout (sample_visualization (lit "b")) (sample_layout_item (lit "b") 0)]
  = Ret [with_layout (sample_visualization (lit "a")) (sample_layout_item (lit "a") 6);
         with_layout (sample_visualization (lit "b")) (sample_layout_item (lit "b") 0)].
Proof.
  apply (@X29_merge_idempotent unit unit sample_layout sample_visualizations).
  - constructor; [intros [H|[]]; discriminate H|].
    constructor; [intros []|constructor].
  - reflexivity.
Defined.

Lemma X30_filters_after_source_witness :
  exists mr ms me,
    exec PPL_INDEX_REGEX_spec (lit "source = logs | stats count()") = Some mr
    /\ m_index mr = 0
    /\ dateMath_parse (DateLib := sample_lib) (lit "now/d") false = Some ms
    /\ dateMath_parse (DateLib := sample_lib) (lit "now/d") true = Some me
    /\ lit "source = logs | stats count()"
       = firstn (m_end mr) (lit "source = logs | stats count()")
           ++ skipn (m_end mr) (lit "source = logs | stats count()")
    /\ lit "source = logs | where timestamp >= '1970-01-01 00:00:00' and timestamp <= '1970-01-01 23:59:59' | where x=1 | stats count()"
       = firstn (m_end mr) (lit "source = logs | stats count()")
           ++ (lit " | where " ++ lit "timestamp" ++ lit " >= '"
                 ++ moment_format (DateLib := sample_lib)
                      (moment_utc ms) PPL_DATE_FORMAT_spec
                 ++ lit "' and " ++ lit "timestamp" ++ lit " <= '"
                 ++ moment_format (DateLib := sample_lib)
                      (moment_utc me) PPL_DATE_FORMAT_spec
                 ++ lit "'")
           ++ (lit " | " ++ lit "where x=1")
           ++ skipn (m_end mr) (lit "source = logs | stats count()").
Proof.
  eapply (@X30_filters_after_source sample_lib sample_constants
            (lit "source = logs | stats count()") (lit "timestamp")
            (lit "now/d") (lit "now/d") (lit "where x=1")
            (lit "source = logs | where timestamp >= '1970-01-01 00:00:00' and timestamp <= '1970-01-01 23:59:59' | where x=1 | stats count()")
            _);
    reflexivity.
Defined.
